(** * pg2ch: the generic table engine (pkg/tableengines/generic.go)

    A shallow embedding of the per-table replication engine: the delta
    buffer counters, the bounded-retry flush, the promotion to the main
    table, the initial sync and the row converter, with the properties
    the specification states about them.

    The engine talks to four collaborators that live outside the file:
    the ClickHouse loader ([chLoader]), the bulk uploader, the Postgres
    transaction and the key-value store of checkpoints ([persStorage]).
    Every call to one of them is recorded in a trace, and its outcome is
    given by an oracle that sees the trace so far.  Mutexes and logging
    are not modelled: the engine is run one operation at a time.

    The rows handed to processChTuples are slices of the memory of the
    caller, and the function appends to them in place: that memory is
    part of the world, and a slice is an address, a length and a
    capacity. *)

From Stdlib Require Import ZArith Lia Strings.Byte.
From Stdlib Require DecimalString HexadecimalString.
From stdpp Require Import gmap strings list.

Open Scope Z_scope.

(** ** Machine integers *)

(** Go's [int] and [int64] on a 64-bit platform. *)
Definition wrap_int (z : Z) : Z := (z + 2 ^ 63) mod 2 ^ 64 - 2 ^ 63.

(** Go's [uint64]. *)
Definition wrap_uint64 (z : Z) : Z := z mod 2 ^ 64.

(** ** Bytes and text *)

Abbreviation bytes := (list byte).

Definition bytes_of (s : string) : bytes := String.list_byte_of_string s.

(** [strconv.FormatUint(z, 10)]. *)
Definition FormatUint (z : Z) : string :=
  DecimalString.NilZero.string_of_uint (N.to_uint (Z.to_N z)).

(** [strings.Join]. *)
Fixpoint Join (l : list string) (sep : string) : string :=
  match l with
  | [] => ""
  | [s] => s
  | s :: rest => s +:+ sep +:+ Join rest sep
  end.

(** ** Constants of the file *)

Definition attemptInterval : Z := 1000000000. (* time.Second, in nanoseconds *)
Definition maxAttempts : nat := 100.
Definition columnDelimiter : byte := x09.      (* '\t' *)
Definition newline : byte := x0a.              (* '\n' *)

(** ** Types taken from the other packages *)

Definition LSN := Z. (* utils.LSN, a uint64 *)

Record ChTableName := { DatabaseName : string; TableName : string }.
Record PgTableName := { SchemaName : string; PgTable : string }.

Record ChColumn := { ChColumnName : string; ChColumnType : string }.
Record PgColumn := { BaseType : string }.

Record ColumnProperty := {
  FlattenIstore : bool;
  FlattenIstoreMin : Z;
  FlattenIstoreMax : Z;
  IstoreKeysSuffix : string;
  IstoreValuesSuffix : string
}.

(** message.Column, message.Tuple and message.Row. *)
Record Column := { Name : string; IsKey : bool }.
Record Tuple := { Kind : byte; Value : bytes }.
Definition Row := list Tuple.

(** [chTuple] is [[]byte].  A tuple the engine builds itself (convertRow)
    is held by value, as its bytes: nothing else refers to it.  The
    tuples of a batch belong to the caller of processChTuples, which
    appends to them; they are held by reference, as slices of the
    memory: [len] bytes at the address [ptr], in an array that has room
    for [cap] bytes from there on.  Two slices share an array when their
    address ranges meet. *)
Definition chTuple := bytes.

Record slice := { ptr : nat; len : nat; cap : nat }.

Definition chTuples := list slice.

(** The part of config.Table the engine reads. *)
Record Table := {
  ChMainTable : ChTableName;
  ChBufferTable : ChTableName;
  ChSyncAuxTable : ChTableName;
  PgTableNameOf : PgTableName;
  InitSyncSkipTruncate : bool;
  MaxBufferLength : Z;
  FlushThreshold : Z;
  GenerationColumn : string;
  PgColumns : gmap string PgColumn;
  ColumnProperties : gmap string ColumnProperty;
  LsnColumnName : string;
  BufferTableRowIdColumn : string
}.

(** Zero values of Go map lookups on a missing key. *)
Definition zeroPgColumn : PgColumn := {| BaseType := "" |}.
Definition zeroColumnProperty : ColumnProperty :=
  {| FlattenIstore := false; FlattenIstoreMin := 0; FlattenIstoreMax := 0;
     IstoreKeysSuffix := ""; IstoreValuesSuffix := "" |}.

(** ** Errors *)

(** An error is either a value handed back by a collaborator or one made
    by [fmt.Errorf]; the latter keeps its format string and arguments. *)
Inductive error :=
| ExternalError (msg : string)
| Errorf (format : string) (args : list fmtArg)
with fmtArg :=
| ArgError (e : error)
| ArgChTable (t : ChTableName)
| ArgPgTable (t : PgTableName)
| ArgNum (z : Z).

(** ** Calls to the collaborators *)

Inductive Call :=
| BufferWrite (p : bytes)                                  (* chLoader.BufferWrite *)
| BufferFlush (target : ChTableName) (columns : list string) (* chLoader.BufferFlush *)
| Exec (stmt : string)                                     (* chLoader.Exec *)
| Query (stmt : string)                                    (* chLoader.Query *)
| PersWrite (key : string) (val : bytes)                   (* persStorage.Write *)
| Wait (d : Z)                  (* select on ctx.Done() and time.After(d) *)
| BulkStart                                                (* bulkUploader.Start *)
| BulkWrite (p : bytes)                                    (* bulkUploader.Write *)
| BulkFinish                                               (* bulkUploader.Finish *)
| BulkUpload (target : ChTableName) (columns : list string) (* bulkUploader.BulkUpload *)
| StatLiveTuples (schema table : string)                   (* pgTx.QueryRow(...).Scan *)
| CopyToWriter (stmt : string).                            (* pgTx.CopyToWriter *)

(** What the outside world answers.  Each answer may depend on all the
    calls made before. *)
Record Oracle := {
  callErr : list Call → Call → option error; (* the error a call returns, if any *)
  ctxDone : list Call → bool;       (* a wait ends by cancellation of ctx *)
  queryRows : list Call → string → list (list string);
  liveTuples : list Call → Z * bool;           (* sql.NullInt64: Int64, Valid *)
  copyLines : list Call → list bytes; (* the lines COPY hands to the writer *)
  copyRowsAffected : list Call → Z             (* CommandTag.RowsAffected() *)
}.

(** Pure functions of the other packages. *)
Class Collaborators := {
  IsEmpty : ChTableName → bool;                 (* config.ChTableName.IsEmpty *)
  ChTableString : ChTableName → string;         (* how fmt prints a table name *)
  PgTableString : PgTableName → string;         (* config.PgTableName.String *)
  KeyName : PgTableName → string;               (* config.PgTableName.KeyName *)
  StrBytes : LSN → bytes;                       (* utils.LSN.StrBytes *)
  FormattedBytes : LSN → bytes;                 (* utils.LSN.FormattedBytes *)
  ConvertColumn : string → Tuple → ColumnProperty → bytes; (* chutils.ConvertColumn *)
  DecodeCopyToTuples : bytes → Row + error      (* pgutils.DecodeCopyToTuples *)
}.

(** ** The engine *)

(** genericTable.  Left out: the two mutexes, [ctx] (its cancellation is
    [ctxDone]), [chLoader] and [bulkUploader] (their calls go to the
    trace), [syncLastBatchTime] (used for logging only), [persStorage]
    and the target of [generationID], which are shared with the rest of
    the program and live in [World]. *)
Record genericTable := {
  cfg : Table;
  chUsedColumns : list string;
  pgUsedColumns : list string;
  columnMapping : gmap string ChColumn;
  bufferCmdId : Z;
  bufferRowId : Z;
  bufferFlushCnt : Z;
  flushQueries : list string;
  tupleColumns : list Column;
  inSync : bool;
  syncedRows : Z;
  rowsToSync : Z;
  auxTblRowID : Z;
  syncSnapshotLSN : LSN
}.

Record World := {
  tbl : genericTable;
  trace : list Call;                   (* calls made so far, oldest first *)
  persStorage : gmap string bytes;     (* the checkpoint store *)
  generationID : Z;                    (* the counter behind *generationID *)
  heap : gmap nat byte                 (* the memory behind the slices of the callers *)
}.

(** Field updates. *)
Definition set_bufferCmdId (v : Z) (t : genericTable) : genericTable :=
  {| cfg := cfg t; chUsedColumns := chUsedColumns t; pgUsedColumns := pgUsedColumns t;
     columnMapping := columnMapping t; bufferCmdId := v; bufferRowId := bufferRowId t;
     bufferFlushCnt := bufferFlushCnt t; flushQueries := flushQueries t;
     tupleColumns := tupleColumns t; inSync := inSync t; syncedRows := syncedRows t;
     rowsToSync := rowsToSync t; auxTblRowID := auxTblRowID t;
     syncSnapshotLSN := syncSnapshotLSN t |}.

Definition set_bufferRowId (v : Z) (t : genericTable) : genericTable :=
  {| cfg := cfg t; chUsedColumns := chUsedColumns t; pgUsedColumns := pgUsedColumns t;
     columnMapping := columnMapping t; bufferCmdId := bufferCmdId t; bufferRowId := v;
     bufferFlushCnt := bufferFlushCnt t; flushQueries := flushQueries t;
     tupleColumns := tupleColumns t; inSync := inSync t; syncedRows := syncedRows t;
     rowsToSync := rowsToSync t; auxTblRowID := auxTblRowID t;
     syncSnapshotLSN := syncSnapshotLSN t |}.

Definition set_bufferFlushCnt (v : Z) (t : genericTable) : genericTable :=
  {| cfg := cfg t; chUsedColumns := chUsedColumns t; pgUsedColumns := pgUsedColumns t;
     columnMapping := columnMapping t; bufferCmdId := bufferCmdId t;
     bufferRowId := bufferRowId t; bufferFlushCnt := v; flushQueries := flushQueries t;
     tupleColumns := tupleColumns t; inSync := inSync t; syncedRows := syncedRows t;
     rowsToSync := rowsToSync t; auxTblRowID := auxTblRowID t;
     syncSnapshotLSN := syncSnapshotLSN t |}.

Definition set_inSync (v : bool) (t : genericTable) : genericTable :=
  {| cfg := cfg t; chUsedColumns := chUsedColumns t; pgUsedColumns := pgUsedColumns t;
     columnMapping := columnMapping t; bufferCmdId := bufferCmdId t;
     bufferRowId := bufferRowId t; bufferFlushCnt := bufferFlushCnt t;
     flushQueries := flushQueries t; tupleColumns := tupleColumns t; inSync := v;
     syncedRows := syncedRows t; rowsToSync := rowsToSync t;
     auxTblRowID := auxTblRowID t; syncSnapshotLSN := syncSnapshotLSN t |}.

Definition set_syncedRows (v : Z) (t : genericTable) : genericTable :=
  {| cfg := cfg t; chUsedColumns := chUsedColumns t; pgUsedColumns := pgUsedColumns t;
     columnMapping := columnMapping t; bufferCmdId := bufferCmdId t;
     bufferRowId := bufferRowId t; bufferFlushCnt := bufferFlushCnt t;
     flushQueries := flushQueries t; tupleColumns := tupleColumns t; inSync := inSync t;
     syncedRows := v; rowsToSync := rowsToSync t;
     auxTblRowID := auxTblRowID t; syncSnapshotLSN := syncSnapshotLSN t |}.

Definition set_rowsToSync (v : Z) (t : genericTable) : genericTable :=
  {| cfg := cfg t; chUsedColumns := chUsedColumns t; pgUsedColumns := pgUsedColumns t;
     columnMapping := columnMapping t; bufferCmdId := bufferCmdId t;
     bufferRowId := bufferRowId t; bufferFlushCnt := bufferFlushCnt t;
     flushQueries := flushQueries t; tupleColumns := tupleColumns t; inSync := inSync t;
     syncedRows := syncedRows t; rowsToSync := v;
     auxTblRowID := auxTblRowID t; syncSnapshotLSN := syncSnapshotLSN t |}.

Definition set_auxTblRowID (v : Z) (t : genericTable) : genericTable :=
  {| cfg := cfg t; chUsedColumns := chUsedColumns t; pgUsedColumns := pgUsedColumns t;
     columnMapping := columnMapping t; bufferCmdId := bufferCmdId t;
     bufferRowId := bufferRowId t; bufferFlushCnt := bufferFlushCnt t;
     flushQueries := flushQueries t; tupleColumns := tupleColumns t; inSync := inSync t;
     syncedRows := syncedRows t; rowsToSync := rowsToSync t;
     auxTblRowID := v; syncSnapshotLSN := syncSnapshotLSN t |}.

Definition set_syncSnapshotLSN (v : LSN) (t : genericTable) : genericTable :=
  {| cfg := cfg t; chUsedColumns := chUsedColumns t; pgUsedColumns := pgUsedColumns t;
     columnMapping := columnMapping t; bufferCmdId := bufferCmdId t;
     bufferRowId := bufferRowId t; bufferFlushCnt := bufferFlushCnt t;
     flushQueries := flushQueries t; tupleColumns := tupleColumns t; inSync := inSync t;
     syncedRows := syncedRows t; rowsToSync := rowsToSync t;
     auxTblRowID := auxTblRowID t; syncSnapshotLSN := v |}.

(** ** A state monad over [World]

    [Fatal] is a stop of the whole process: [log.Fatalf] or a run-time
    panic. *)
Inductive result (A : Type) :=
| Ret (a : A)
| Fatal (why : string).
Arguments Ret {A} a.
Arguments Fatal {A} why.

Definition M (A : Type) : Type := World → result A * World.

Definition ret {A} (a : A) : M A := fun w => (Ret a, w).

Definition bind {A B} (c : M A) (k : A → M B) : M B :=
  fun w => match c w with
           | (Ret a, w') => k a w'
           | (Fatal why, w') => (Fatal why, w')
           end.

Notation "x <~ c ;; k" := (bind c (fun x => k))
  (at level 100, c at next level, right associativity).

(** [if err := c; err != nil { return onErr err }; k]. *)
Definition orReturn {A} (c : M (option error)) (onErr : error → A) (k : M A) : M A :=
  e <~ c ;;
  match e with
  | Some err => ret (onErr err)
  | None => k
  end.

Definition getTbl : M genericTable := fun w => (Ret (tbl w), w).

Definition modifyTbl (f : genericTable → genericTable) : M unit :=
  fun w => (Ret tt, {| tbl := f (tbl w); trace := trace w;
                       persStorage := persStorage w; generationID := generationID w;
                       heap := heap w |}).

Definition record (c : Call) (w : World) : World :=
  {| tbl := tbl w; trace := trace w ++ [c];
     persStorage := persStorage w; generationID := generationID w; heap := heap w |}.

Notation "'attempt' c 'onerr' f ;; k" := (orReturn c f k)
  (at level 100, c at next level, f at next level, right associativity).

(** The outcome of a loop body that may return from its function. *)
Definition returned (A : Type) : Type := option A.

(** ** Slices and [append] *)

(** The byte at an address; memory that was never written holds 0. *)
Definition load (m : gmap nat byte) (a : nat) : byte := default x00 (m !! a).

Definition loadBytes (m : gmap nat byte) (a n : nat) : bytes := load m <$> seq a n.

Fixpoint storeBytes (m : gmap nat byte) (a : nat) (xs : bytes) : gmap nat byte :=
  match xs with
  | [] => m
  | x :: rest => storeBytes (<[a := x]> m) (S a) rest
  end.

(** The bytes a slice shows. *)
Definition sliceBytes (m : gmap nat byte) (s : slice) : bytes :=
  loadBytes m (ptr s) (len s).

(** A variable of type [[]byte] that starts as a slice of the caller:
    it is that slice, grown in place or not, until an [append] finds no
    room and moves it to a new array, which nothing else refers to and
    is held by value. *)
Inductive rowVar :=
| Shared (s : slice)
| Moved (b : bytes).

Definition rowBytes (m : gmap nat byte) (row : rowVar) : bytes :=
  match row with
  | Shared s => sliceBytes m s
  | Moved b => b
  end.

(** [row = append(row, xs...)]: when [len(row) + len(xs) <= cap(row)]
    the bytes are written to the array of [row], after its last byte;
    otherwise a new array gets the bytes of [row] and [xs], and the old
    one is left as it is. *)
Definition appendTo (xs : bytes) (row : rowVar) : M rowVar :=
  fun w =>
    match row with
    | Moved b => (Ret (Moved (b ++ xs)), w)
    | Shared s =>
        if (len s + length xs <=? cap s)%nat
        then (Ret (Shared {| ptr := ptr s; len := len s + length xs; cap := cap s |}),
              {| tbl := tbl w; trace := trace w; persStorage := persStorage w;
                 generationID := generationID w;
                 heap := storeBytes (heap w) (ptr s + len s) xs |})
        else (Ret (Moved (sliceBytes (heap w) s ++ xs)), w)
    end.

Definition readRow (row : rowVar) : M bytes :=
  fun w => (Ret (rowBytes (heap w) row), w).

Section Engine.

Context `{Collab : Collaborators} (env : Oracle).

(** ** Talking to the collaborators *)

(** A call that answers with an error or nil. *)
Definition call (c : Call) : M (option error) :=
  fun w => (Ret (callErr env (trace w) c), record c w).

(** The [select] of the retry loops: true when [ctx.Done()] wins. *)
Definition waitOrDone : M bool :=
  fun w => (Ret (ctxDone env (trace w)), record (Wait attemptInterval) w).

(** [persStorage.Write]: the store changes when the write succeeds. *)
Definition persWrite (key : string) (val : bytes) : M (option error) :=
  fun w =>
    match callErr env (trace w) (PersWrite key val) with
    | Some err => (Ret (Some err), record (PersWrite key val) w)
    | None =>
        (Ret None,
         {| tbl := tbl w; trace := trace w ++ [PersWrite key val];
            persStorage := <[key := val]> (persStorage w);
            generationID := generationID w; heap := heap w |})
    end.

(** ** Small helpers of the engine *)

Definition writeLine (val : bytes) : M (option error) :=
  attempt call (BufferWrite val) onerr Some ;;
  attempt call (BufferWrite [newline]) onerr Some ;;
  ret None.

Definition truncateTable (tableName : ChTableName) : M (option error) :=
  attempt call (Exec ("truncate table " +:+ DatabaseName tableName +:+ "."
                      +:+ TableName tableName)) onerr Some ;;
  ret None.

Definition pgStatLiveTuples : M (Z * option error) :=
  fun w =>
    let pg := PgTableNameOf (cfg (tbl w)) in
    let c := StatLiveTuples (SchemaName pg) (PgTable pg) in
    let err := callErr env (trace w) c in
    let '(rows, valid) := liveTuples env (trace w) in
    (Ret (match err with
          | Some e => (0, Some e)
          | None => if valid then (wrap_uint64 rows, None) else (0, None)
          end),
     record c w).

Definition syncAuxTableColumns (t : genericTable) : list string :=
  chUsedColumns t ++ [BufferTableRowIdColumn (cfg t); LsnColumnName (cfg t)].

Definition bufTableColumns (t : genericTable) : list string :=
  chUsedColumns t ++ [BufferTableRowIdColumn (cfg t)].

(** ** convertRow *)

(** The loop over [t.tupleColumns]; [colId] is the index of the head of
    [cols].  [None] is the panic of [row[colId]] out of range. *)
Fixpoint convertColumns (t : genericTable) (row : Row) (colId : nat)
    (cols : list Column) (res : bytes) : option bytes :=
  match cols with
  | [] => Some res
  | col :: rest =>
      match columnMapping t !! Name col with
      | None => convertColumns t row (S colId) rest res
      | Some _ =>
          match row !! colId with
          | None => None
          | Some tup =>
              let values :=
                ConvertColumn
                  (BaseType (default zeroPgColumn (PgColumns (cfg t) !! Name col)))
                  tup
                  (default zeroColumnProperty (ColumnProperties (cfg t) !! Name col)) in
              let res := if Nat.ltb 0 colId then res ++ [columnDelimiter] else res in
              convertColumns t row (S colId) rest (res ++ values)
          end
      end
  end.

Definition convertRow (t : genericTable) (genID : Z) (row : Row) : option chTuple :=
  match convertColumns t row 0 (tupleColumns t) [] with
  | None => None
  | Some res =>
      if String.eqb (GenerationColumn (cfg t)) "" then Some res
      else
        let res := if Nat.ltb 0 (length res) then res ++ [columnDelimiter] else res in
        Some (res ++ bytes_of (FormatUint genID))
  end.

Definition convertRowM (row : Row) : M chTuple :=
  fun w =>
    match convertRow (tbl w) (generationID w) row with
    | Some res => (Ret res, w)
    | None => (Fatal "index out of range", w)
    end.

(** ** The delta buffer: attemptFlushBuffer and flushBuffer *)

Definition attemptFlushBuffer : M (option error) :=
  t <~ getTbl ;;
  if bufferCmdId t =? 0 then ret None
  else
    attempt
      (if inSync t then
         attempt call (BufferFlush (ChSyncAuxTable (cfg t)) (syncAuxTableColumns t))
         onerr (fun err => Some (Errorf "could not flush buffer for %q table: %v"
                                   [ArgChTable (ChSyncAuxTable (cfg t)); ArgError err])) ;;
         ret None
       else
         attempt call (BufferFlush (ChMainTable (cfg t)) (chUsedColumns t))
         onerr (fun err => Some (Errorf "could not flush buffer for %q table: %v"
                                   [ArgChTable (ChMainTable (cfg t)); ArgError err])) ;;
         ret None)
    onerr Some ;;
    _ <~ modifyTbl (set_bufferCmdId 0) ;;
    _ <~ modifyTbl (fun t => set_bufferFlushCnt (wrap_int (bufferFlushCnt t + 1)) t) ;;
    ret None.

(** The [for attempt := 0; attempt < maxAttempts; attempt++] loop of
    flushBuffer, with [remaining = maxAttempts - attempt] and [err] the
    variable declared before the loop. *)
Fixpoint flushBufferLoop (remaining : nat) (err : option error) : M (option error) :=
  match remaining with
  | O => ret err
  | S n =>
      err <~ attemptFlushBuffer ;;
      match err with
      | None => ret None
      | Some e =>
          done <~ waitOrDone ;;
          if done then ret (Some (Errorf "abort retrying" []))
          else flushBufferLoop n (Some e)
      end
  end.

Definition flushBuffer : M (option error) := flushBufferLoop maxAttempts None.

(** ** processChTuples *)

(** The [for _, row := range set] loop.  [Some r] means the function
    returned [r] from inside the loop.  [row] is a copy of the slice in
    [set]: the appends change the variable and the memory, not [set]. *)
Fixpoint writeRows (lsn : LSN) (set : chTuples) : M (returned (bool * option error)) :=
  match set with
  | [] => ret None
  | row :: rest =>
      t <~ getTbl ;;
      routed <~ (if inSync t then
                   row <~ appendTo [columnDelimiter] (Shared row) ;;
                   row <~ appendTo (bytes_of (FormatUint (auxTblRowID t))) row ;;
                   row <~ appendTo [columnDelimiter] row ;;
                   row <~ appendTo (StrBytes lsn) row ;;
                   _ <~ modifyTbl (set_auxTblRowID (wrap_uint64 (auxTblRowID t + 1))) ;;
                   ret (Some row)
                 else if lsn <? syncSnapshotLSN t then ret None
                 else ret (Some (Shared row))) ;;
      match routed with
      | None => ret (Some (false, None))
      | Some row =>
          val <~ readRow row ;;
          err <~ writeLine val ;;
          match err with
          | Some e => ret (Some (false, Some e))
          | None =>
              _ <~ modifyTbl (fun t => set_bufferRowId (wrap_int (bufferRowId t + 1)) t) ;;
              writeRows lsn rest
          end
      end
  end.

(** Lines 282-303: the [if set != nil] block; a nil slice is [None]. *)
Definition stageTuples (lsn : LSN) (set : option chTuples)
  : M (returned (bool * option error)) :=
  match set with
  | None => ret None
  | Some rows =>
      r <~ writeRows lsn rows ;;
      match r with
      | Some out => ret (Some out)
      | None =>
          _ <~ modifyTbl (fun t => set_bufferCmdId (wrap_int (bufferCmdId t + 1)) t) ;;
          ret None
      end
  end.

(** Lines 305-315: the auto-flush and the merge signal. *)
Definition flushAndSignal : M (bool * option error) :=
  t <~ getTbl ;;
  attempt (if bufferCmdId t =? MaxBufferLength (cfg t) then flushBuffer else ret None)
  onerr (fun err => (false, Some err)) ;;
  t <~ getTbl ;;
  if IsEmpty (ChBufferTable (cfg t)) then ret (false, None)
  else ret (FlushThreshold (cfg t) <=? bufferFlushCnt t, None).

Definition processChTuples (lsn : LSN) (set : option chTuples) : M (bool * option error) :=
  r <~ stageTuples lsn set ;;
  match r with
  | Some out => ret out
  | None => flushAndSignal
  end.

(** ** Promotion: tryFlushToMainTable and FlushToMainTable *)

Fixpoint execQueries (queries : list string) : M (option error) :=
  match queries with
  | [] => ret None
  | query :: rest =>
      attempt call (Exec query) onerr Some ;;
      execQueries rest
  end.

Definition tryFlushToMainTable : M (option error) :=
  t <~ getTbl ;;
  attempt execQueries (flushQueries t) onerr Some ;;
  _ <~ modifyTbl (set_bufferFlushCnt 0) ;;
  _ <~ modifyTbl (set_bufferRowId 0) ;;
  ret None.

(** The retry loop of FlushToMainTable.  Its [err] is declared inside
    the loop body, so nothing of it is left when the loop ends: [Some e]
    is the [return] from inside the loop, [None] is leaving the loop by
    [break] or because [attempt] reached [maxAttempts]. *)
Fixpoint promoteLoop (remaining : nat) : M (returned error) :=
  match remaining with
  | O => ret None
  | S n =>
      err <~ tryFlushToMainTable ;;
      match err with
      | None => ret None
      | Some _ =>
          done <~ waitOrDone ;;
          if done then ret (Some (Errorf "abort retrying" []))
          else promoteLoop n
      end
  end.

Definition FlushToMainTable (lsn : LSN) : M (option error) :=
  attempt flushBuffer
  onerr (fun err => Some (Errorf "could not flush buffers: %v" [ArgError err])) ;;
  t <~ getTbl ;;
  if IsEmpty (ChBufferTable (cfg t)) || (bufferFlushCnt t =? 0) then ret None
  else
    r <~ promoteLoop maxAttempts ;;
    match r with
    | Some err => ret (Some err)
    | None =>
        attempt (if negb (IsEmpty (ChBufferTable (cfg t)))
                 then truncateTable (ChBufferTable (cfg t)) else ret None)
        onerr (fun err => Some (Errorf "could not truncate buffer table: %v"
                                  [ArgError err])) ;;
        t <~ getTbl ;;
        attempt (if negb (inSync t)
                 then persWrite (KeyName (PgTableNameOf (cfg t))) (FormattedBytes lsn)
                 else ret None)
        onerr (fun err => Some (Errorf "could not save lsn for table %q: %v"
                                  [ArgPgTable (PgTableNameOf (cfg t)); ArgError err])) ;;
        ret None
    end.

(** ** Truncate and StartSync *)

Definition Truncate (lsn : LSN) : M (option error) :=
  _ <~ modifyTbl (set_bufferCmdId 0) ;;
  t <~ getTbl ;;
  attempt truncateTable (ChMainTable (cfg t)) onerr Some ;;
  if IsEmpty (ChBufferTable (cfg t)) then ret None
  else truncateTable (ChBufferTable (cfg t)).

Definition StartSync : M unit := modifyTbl (set_inSync true).

(** ** The initial sync *)

Definition genSyncWrite (p : bytes) : M (option error) :=
  match DecodeCopyToTuples p with
  | inr err => ret (Some (Errorf "could not parse copy string: %v" [ArgError err]))
  | inl row =>
      tuple <~ convertRowM row ;;
      attempt call (BulkWrite tuple) onerr Some ;;
      _ <~ modifyTbl (fun t => set_syncedRows (wrap_uint64 (syncedRows t + 1)) t) ;;
      ret None
  end.

(** Modelled from the spec: the writer [w] that genSync hands to
    [pgTx.CopyToWriter] is built by the caller and is not in the file;
    the specification (4.4, step 7) says that each line that arrives is
    decoded, converted and given to the bulk uploader, with
    [syncedRows++] per line, which is what genSyncWrite does.  The copy
    stops at the first line the writer refuses. *)
Fixpoint writeCopyLines (lines : list bytes) : M (option error) :=
  match lines with
  | [] => ret None
  | p :: rest =>
      attempt genSyncWrite p onerr Some ;;
      writeCopyLines rest
  end.

(** [pgTx.CopyToWriter(w, stmt)]: the rows affected and the error. *)
Definition copyToWriter (stmt : string) : M (Z * option error) :=
  fun w =>
    let c := CopyToWriter stmt in
    let rows := copyRowsAffected env (trace w) in
    let err := callErr env (trace w) c in
    match writeCopyLines (copyLines env (trace w)) (record c w) with
    | (Ret (Some e), w') => (Ret (0, Some e), w')
    | (Ret None, w') => (Ret (rows, err), w')
    | (Fatal why, w') => (Fatal why, w')
    end.

(** [deltaSize]: stops the process when the query fails ([log.Fatalf])
    or answers no row ([res[0][0]] panics). *)
Definition deltaSize (lsn : LSN) : M string :=
  fun w =>
    let t := tbl w in
    let stmt := "SELECT count() FROM " +:+ ChTableString (ChSyncAuxTable (cfg t))
                +:+ " WHERE " +:+ LsnColumnName (cfg t) +:+ " > " +:+ FormatUint lsn in
    match callErr env (trace w) (Query stmt) with
    | Some _ => (Fatal "query error", record (Query stmt) w)
    | None =>
        match queryRows env (trace w) stmt with
        | (cell :: _) :: _ => (Ret cell, record (Query stmt) w)
        | _ => (Fatal "index out of range", record (Query stmt) w)
        end
    end.

Definition mergeStatement (t : genericTable) (snapshotLSN : LSN) : string :=
  "INSERT INTO " +:+ ChTableString (ChMainTable (cfg t))
  +:+ "(" +:+ Join (chUsedColumns t) "," +:+ ") SELECT "
  +:+ Join (chUsedColumns t) "," +:+ " FROM "
  +:+ ChTableString (ChSyncAuxTable (cfg t))
  +:+ " WHERE " +:+ LsnColumnName (cfg t) +:+ " > " +:+ FormatUint snapshotLSN
  +:+ " ORDER BY " +:+ BufferTableRowIdColumn (cfg t).

(** Lines 189-230 of genSync: from the truncation of the aux table to
    [bulkUploader.Finish].  [inl err] is a [return err]; [inr] carries
    the rows affected of the COPY and what the goroutine running
    BulkUpload has put on [loaderErrCh] (the call is recorded where the
    goroutine is started). *)
Definition genSyncCopy (snapshotLSN : LSN) : M (error + Z * option error) :=
  t <~ getTbl ;;
  attempt (if negb (IsEmpty (ChSyncAuxTable (cfg t)))
           then truncateTable (ChSyncAuxTable (cfg t)) else ret None)
  onerr (fun err => inl (Errorf "could not truncate aux table: %v" [ArgError err])) ;;
  _ <~ modifyTbl (set_syncSnapshotLSN snapshotLSN) ;;
  live <~ pgStatLiveTuples ;;
  _ <~ (match live with
        | (_, Some _) => ret tt
        | (tblLiveTuples, None) => modifyTbl (set_rowsToSync tblLiveTuples)
        end) ;;
  attempt (if negb (InitSyncSkipTruncate (cfg t))
           then truncateTable (ChMainTable (cfg t)) else ret None)
  onerr (fun err => inl (Errorf "could not truncate main table: %v" [ArgError err])) ;;
  _ <~ modifyTbl (set_syncedRows 0) ;;
  attempt call BulkStart
  onerr (fun err => inl (Errorf "could not init bulkuploader: %v" [ArgError err])) ;;
  loaderErr <~ call (BulkUpload (ChMainTable (cfg t)) (chUsedColumns t)) ;;
  ct <~ copyToWriter ("copy (select " +:+ Join (pgUsedColumns t) ", "
                      +:+ " from only " +:+ PgTableString (PgTableNameOf (cfg t))
                      +:+ ") to stdout") ;;
  match ct with
  | (_, Some err) => ret (inl (Errorf "could not copy: %v" [ArgError err]))
  | (pgRows, None) =>
      attempt call BulkFinish
      onerr (fun err => inl (Errorf "could not finalize bulkuploader: %v"
                               [ArgError err])) ;;
      ret (inr (pgRows, loaderErr))
  end.

(** Lines 245-278 of genSync: the post sync. *)
Definition genSyncPost (snapshotLSN : LSN) : M (option error) :=
  attempt flushBuffer
  onerr (fun err => Some (Errorf "could not flush buffer: %v" [ArgError err])) ;;
  _ <~ deltaSize snapshotLSN ;;
  t <~ getTbl ;;
  attempt call (Exec (mergeStatement t snapshotLSN))
  onerr (fun err => Some (Errorf "could not merge with sync aux table: %v"
                            [ArgError err])) ;;
  attempt (if negb (IsEmpty (ChSyncAuxTable (cfg t)))
           then truncateTable (ChSyncAuxTable (cfg t)) else ret None)
  onerr (fun err => Some (Errorf "could not truncate table: %v" [ArgError err])) ;;
  attempt persWrite (KeyName (PgTableNameOf (cfg t))) (FormattedBytes snapshotLSN)
  onerr (fun err => Some (Errorf "could not save lsn for table %q: %v"
                            [ArgPgTable (PgTableNameOf (cfg t)); ArgError err])) ;;
  _ <~ modifyTbl (set_inSync false) ;;
  ret None.

Definition genSync (snapshotLSN : LSN) : M (option error) :=
  copied <~ genSyncCopy snapshotLSN ;;
  match copied with
  | inl err => ret (Some err)
  | inr (pgRows, loaderErr) =>
      t <~ getTbl ;;
      if negb (pgRows =? wrap_int (syncedRows t)) then
        ret (Some (Errorf
          "number of rows inserted to clickhouse(%v) doesn't match the initial number of rows in pg(%v)"
          [ArgNum (syncedRows t); ArgNum pgRows]))
      else
        match loaderErr with
        | Some err => ret (Some (Errorf "could not load to CH: %v" [ArgError err]))
        | None => genSyncPost snapshotLSN
        end
  end.

End Engine.

(** ** Notions used to state the properties *)

(** The call attemptFlushBuffer makes when the buffer is not empty. *)
Definition flushTarget (t : genericTable) : ChTableName :=
  if inSync t then ChSyncAuxTable (cfg t) else ChMainTable (cfg t).

Definition flushCall (t : genericTable) : Call :=
  if inSync t then BufferFlush (ChSyncAuxTable (cfg t)) (syncAuxTableColumns t)
  else BufferFlush (ChMainTable (cfg t)) (chUsedColumns t).

(** The error attemptFlushBuffer returns when that call answers [err]. *)
Definition flushError (t : genericTable) (err : error) : error :=
  Errorf "could not flush buffer for %q table: %v"
    [ArgChTable (flushTarget t); ArgError err].

(** The counters after a flush that went through. *)
Definition afterFlush (t : genericTable) : genericTable :=
  set_bufferFlushCnt (wrap_int (bufferFlushCnt t + 1)) (set_bufferCmdId 0 t).

(** What [k] failed attempts of the call [c] leave in the trace: each
    attempt is followed by a wait of [attemptInterval]. *)
Fixpoint retries (c : Call) (k : nat) : list Call :=
  match k with
  | O => []
  | S k' => c :: Wait attemptInterval :: retries c k'
  end.

Definition withTbl (t : genericTable) (w : World) : World :=
  {| tbl := t; trace := trace w; persStorage := persStorage w;
     generationID := generationID w; heap := heap w |}.

Definition withTrace (tr : list Call) (w : World) : World :=
  {| tbl := tbl w; trace := tr; persStorage := persStorage w;
     generationID := generationID w; heap := heap w |}.

Definition isPersWrite (c : Call) : bool :=
  match c with PersWrite _ _ => true | _ => false end.

Definition withHeap (h : gmap nat byte) (w : World) : World :=
  {| tbl := tbl w; trace := trace w; persStorage := persStorage w;
     generationID := generationID w; heap := h |}.

(** The bytes the rows of a batch show in the memory [m]. *)
Definition contents (m : gmap nat byte) (set : chTuples) : list bytes :=
  map (sliceBytes m) set.

(** The addresses an [append] to the slice [s] can write in place are
    those of its spare capacity, from [ptr + len] up to [ptr + cap].
    [clearOf s later]: none of the bytes [later] shows is among them. *)
Definition clearOf (s later : slice) : bool :=
  (cap s <=? len s)%nat
  || (len later =? 0)%nat
  || (ptr s + cap s <=? ptr later)%nat
  || (ptr later + len later <=? ptr s + len s)%nat.

Definition spare (s : slice) (a : nat) : Prop :=
  (ptr s + len s ≤ a < ptr s + cap s)%nat.

(** The variable [row], which started as the slice [s], is still in the
    array of [s] if it has not moved. *)
Definition grownFrom (s : slice) (row : rowVar) : Prop :=
  match row with
  | Moved _ => True
  | Shared s' => ptr s' = ptr s ∧ cap s' = cap s ∧ (len s ≤ len s')%nat
  end.

(** No row of the batch shows bytes of the spare capacity of a row that
    comes before it. *)
Fixpoint apart (set : chTuples) : bool :=
  match set with
  | [] => true
  | row :: rest => forallb (clearOf row) rest && apart rest
  end.

(** [keeps R c]: every run of the computation [c] takes a world to one
    related to it by [R]. *)
Definition keeps (R : World → World → Prop) {A} (c : M A) : Prop :=
  ∀ w, R w (c w).2.

(** [R] is a preorder that is respected by recording a call other than
    a write to the checkpoint store, and by an update of the table that
    touches neither [cfg] nor [inSync]. *)
Record frame (R : World → World → Prop) : Prop := {
  frame_refl : ∀ w, R w w;
  frame_trans : ∀ a b c, R a b → R b c → R a c;
  frame_record : ∀ c w, isPersWrite c = false → R w (record c w);
  frame_update : ∀ f w,
    (∀ t, cfg (f t) = cfg t) → (∀ t, inSync (f t) = inSync t) →
    R w (withTbl (f (tbl w)) w)
}.

Section Schedule.

Context (env : Oracle).




(** Each of the calls [calls], made in this order from the trace [tr],
    is answered without error. *)
Fixpoint accepted (tr : list Call) (calls : list Call) : Prop :=
  match calls with
  | [] => True
  | c :: rest => callErr env tr c = None ∧ accepted (tr ++ [c]) rest
  end.

End Schedule.

Section Expected.

Context `{Collab : Collaborators}.

(** What the specification asks the stream handler to send to the
    loader for the rows [set] of one command received during the sync,
    the first row taking the number [aux]: the row with a tab, the
    number, a tab and the LSN appended, then a newline. *)
Fixpoint auxLines (lsn : LSN) (aux : Z) (set : list bytes) : list Call :=
  match set with
  | [] => []
  | row :: rest =>
      BufferWrite (row ++ [columnDelimiter] ++ bytes_of (FormatUint aux)
                       ++ [columnDelimiter] ++ StrBytes lsn)
      :: BufferWrite [newline]
      :: auxLines lsn (wrap_uint64 (aux + 1)) rest
  end.


End Expected.

(** ** One instance of the collaborators

    The functions below stand for code of the other packages, for use in
    the examples. *)

Definition upperHex (b : byte) : byte :=
  match b with
  | x61 => x41 | x62 => x42 | x63 => x43
  | x64 => x44 | x65 => x45 | x66 => x46
  | _ => b
  end.

(** [fmt.Sprintf("%X", z)]. *)
Definition hexUpper (z : Z) : bytes :=
  map upperHex
    (bytes_of (HexadecimalString.NilZero.string_of_uint (N.to_hex_uint (Z.to_N z)))).

(** Modelled from the spec: utils.LSN.FormattedBytes is not in the file;
    the persisted value is the textual LSN in the source's canonical
    format, a hex pair [%X/%X] of the high and the low 32 bits. *)
Definition formattedLSN (l : LSN) : bytes :=
  hexUpper (Z.shiftr l 32) ++ bytes_of "/" ++ hexUpper (Z.land l (2 ^ 32 - 1)).

(** Modelled from the spec: utils.LSN.StrBytes is not in the file; the
    event LSN is appended as decimal. *)
Definition decimalLSN (l : LSN) : bytes := bytes_of (FormatUint l).

(** Modelled from the spec: config.ChTableName.IsEmpty is not in the
    file; an optional table that is not configured has an empty name. *)
Definition emptyName (n : ChTableName) : bool :=
  String.eqb (DatabaseName n) "" && String.eqb (TableName n) "".

(** A stand-in for pgutils.DecodeCopyToTuples: the fields of a COPY
    line are separated by tabs. *)
Fixpoint splitOn (sep : byte) (p : bytes) (cur : bytes) : list bytes :=
  match p with
  | [] => [cur]
  | b :: rest =>
      if Byte.eqb b sep then cur :: splitOn sep rest []
      else splitOn sep rest (cur ++ [b])
  end.

Definition decodeCopyLine (p : bytes) : Row + error :=
  inl (map (λ v, {| Kind := x74; Value := v |}) (splitOn columnDelimiter p [])).

#[local] Instance pgCollab : Collaborators := {|
  IsEmpty := emptyName;
  ChTableString := fun n => DatabaseName n +:+ "." +:+ TableName n;
  PgTableString := fun n => SchemaName n +:+ "." +:+ PgTable n;
  KeyName := fun n => SchemaName n +:+ "." +:+ PgTable n;
  StrBytes := decimalLSN;
  FormattedBytes := formattedLSN;
  ConvertColumn := fun _ tup _ => Value tup;
  DecodeCopyToTuples := decodeCopyLine
|}.

(** ** A table for the examples: two source columns, a buffer table and
    a sync aux table, one promotion query. *)

Definition sampleCfg : Table := {|
  ChMainTable := {| DatabaseName := "db"; TableName := "events" |};
  ChBufferTable := {| DatabaseName := "db"; TableName := "events_buf" |};
  ChSyncAuxTable := {| DatabaseName := "db"; TableName := "events_aux" |};
  PgTableNameOf := {| SchemaName := "public"; PgTable := "events" |};
  InitSyncSkipTruncate := false;
  MaxBufferLength := 2;
  FlushThreshold := 1;
  GenerationColumn := "";
  PgColumns := ∅;
  ColumnProperties := ∅;
  LsnColumnName := "lsn";
  BufferTableRowIdColumn := "row_id"
|}.

Definition sampleTable : genericTable := {|
  cfg := sampleCfg;
  chUsedColumns := ["id"; "v"];
  pgUsedColumns := ["id"; "v"];
  columnMapping :=
    {[ "id" := {| ChColumnName := "id"; ChColumnType := "UInt64" |};
       "v" := {| ChColumnName := "v"; ChColumnType := "String" |} ]};
  bufferCmdId := 0;
  bufferRowId := 0;
  bufferFlushCnt := 0;
  flushQueries := ["INSERT INTO db.events SELECT id, v FROM db.events_buf ORDER BY row_id"];
  tupleColumns := [ {| Name := "id"; IsKey := true |}; {| Name := "v"; IsKey := false |} ];
  inSync := false;
  syncedRows := 0;
  rowsToSync := 0;
  auxTblRowID := 0;
  syncSnapshotLSN := 0
|}.

Definition sevenBytes : bytes := bytes_of "7" ++ [columnDelimiter] ++ bytes_of "seven".
Definition eightBytes : bytes := bytes_of "8" ++ [columnDelimiter] ++ bytes_of "eight".

(** The rows (7, seven) and (8, eight), each in an array of 16 bytes of
    its own, and once more side by side in one array of 14 bytes. *)
Definition sampleHeap : gmap nat byte :=
  storeBytes (storeBytes (storeBytes ∅ 0 sevenBytes) 16 eightBytes)
    32 (sevenBytes ++ eightBytes).

Definition sampleWorld : World :=
  {| tbl := sampleTable; trace := []; persStorage := ∅; generationID := 7;
     heap := sampleHeap |}.

(** Every call succeeds, the context is never cancelled, the source
    table is empty. *)
Definition quietOracle : Oracle := {|
  callErr := fun _ _ => None;
  ctxDone := fun _ => false;
  queryRows := fun _ _ => [["0"]];
  liveTuples := fun _ => (0, true);
  copyLines := fun _ => [];
  copyRowsAffected := fun _ => 0
|}.

Definition isBufferFlush (c : Call) : bool :=
  match c with BufferFlush _ _ => true | _ => false end.

Definition isExec (c : Call) : bool :=
  match c with Exec _ => true | _ => false end.

Definition isWait (c : Call) : bool :=
  match c with Wait _ => true | _ => false end.

Definition isExecOf (query : string) (c : Call) : bool :=
  match c with Exec stmt => String.eqb stmt query | _ => false end.

(** The sink refuses the calls [bad] picks, with the same error; the
    context is cancelled after [patience] waits (never when [None]). *)
Definition failingOracle (bad : Call → bool) (patience : option nat) : Oracle := {|
  callErr := fun _ c => if bad c then Some (ExternalError "connection refused") else None;
  ctxDone := fun tr =>
    match patience with
    | None => false
    | Some n => Nat.leb n (length (List.filter isWait tr))
    end;
  queryRows := fun _ _ => [["0"]];
  liveTuples := fun _ => (0, true);
  copyLines := fun _ => [];
  copyRowsAffected := fun _ => 0
|}.

(** ** Worlds and oracles of the examples *)


(** The source sends one line and reports two rows. *)
Definition shortCopyOracle : Oracle := {|
  callErr := fun _ _ => None;
  ctxDone := fun _ => false;
  queryRows := fun _ _ => [["0"]];
  liveTuples := fun _ => (2, true);
  copyLines := fun _ => [bytes_of "1" ++ [columnDelimiter] ++ bytes_of "one"];
  copyRowsAffected := fun _ => 2
|}.

Definition promotionQuery : string :=
  "INSERT INTO db.events SELECT id, v FROM db.events_buf ORDER BY row_id".

(** The sink refuses the promotion query, and nothing else. *)
Definition promotionDown : Oracle := failingOracle (isExecOf promotionQuery) None.

Definition liveRow : slice := {| ptr := 0; len := 7; cap := 16 |}.
Definition liveRow2 : slice := {| ptr := 16; len := 7; cap := 16 |}.

(** [buf[0:7]] and [buf[7:14]] of the array [buf] of 14 bytes. *)
Definition packedRow : slice := {| ptr := 32; len := 7; cap := 14 |}.
Definition packedRow2 : slice := {| ptr := 39; len := 7; cap := 7 |}.

(** One command staged outside of a sync. *)
Definition stagedWorld : World :=
  (processChTuples quietOracle 300 (Some [liveRow]) sampleWorld).2.

(** StartSync has been called. *)
Definition syncStarted : World := (StartSync sampleWorld).2.

(** One command has arrived during the sync. *)
Definition syncingWorld : World :=
  (processChTuples quietOracle 300 (Some [liveRow]) syncStarted).2.

(** The sync is over, with the snapshot LSN 0/C8. *)
Definition afterSync : World := (genSync quietOracle 200 syncingWorld).2.



(** A table whose first source column is not mapped. *)
Definition sparseTable : genericTable := {|
  cfg := sampleCfg;
  chUsedColumns := ["v"];
  pgUsedColumns := ["v"];
  columnMapping := {[ "v" := {| ChColumnName := "v"; ChColumnType := "String" |} ]};
  bufferCmdId := 0;
  bufferRowId := 0;
  bufferFlushCnt := 0;
  flushQueries := [promotionQuery];
  tupleColumns := [ {| Name := "id"; IsKey := true |}; {| Name := "v"; IsKey := false |} ];
  inSync := false;
  syncedRows := 0;
  rowsToSync := 0;
  auxTblRowID := 0;
  syncSnapshotLSN := 0
|}.

Definition sourceRow : Row :=
  [ {| Kind := x74; Value := bytes_of "1" |}; {| Kind := x74; Value := bytes_of "x" |} ].

(** ** Relations between the world before and after an operation *)

(** Neither [inSync] nor the checkpoint store has changed, and no write
    to the store was tried. *)
Definition checkpointUntouched (w w' : World) : Prop :=
  inSync (tbl w') = inSync (tbl w)
  ∧ persStorage w' = persStorage w
  ∧ ∃ added, trace w' = trace w ++ added
             ∧ Forall (λ c, isPersWrite c = false) added.

(** The configuration is the same and under every key the store holds
    what it held or [val]. *)
Definition storeStep (val : bytes) (w w' : World) : Prop :=
  cfg (tbl w') = cfg (tbl w)
  ∧ ∀ key, persStorage w' !! key = persStorage w !! key
           ∨ persStorage w' !! key = Some val.

(** ** The operations that write the checkpoint *)

Inductive Op :=
| OpFlushToMainTable (lsn : LSN)
| OpGenSync (snapshotLSN : LSN).

Definition opLSN (op : Op) : LSN :=
  match op with
  | OpFlushToMainTable lsn => lsn
  | OpGenSync snapshotLSN => snapshotLSN
  end.

Section Checkpoint.

Context `{Collab : Collaborators} (env : Oracle).

Definition runOp (op : Op) : M (option error) :=
  match op with
  | OpFlushToMainTable lsn => FlushToMainTable env lsn
  | OpGenSync snapshotLSN => genSync env snapshotLSN
  end.

(** What the store holds under the key of the table. *)
Definition checkpoint (w : World) : option bytes :=
  persStorage w !! KeyName (PgTableNameOf (cfg (tbl w))).

(** The checkpoints found in the store after each operation of [ops],
    run one after the other from [w]. *)
Fixpoint checkpointsAlong (ops : list Op) (w : World) : list (option bytes) :=
  match ops with
  | [] => []
  | op :: rest =>
      let w' := (runOp op w).2 in
      checkpoint w' :: checkpointsAlong rest w'
  end.

End Checkpoint.

(** [lsns] never goes down and starts at [l] or above. *)
Fixpoint ascendingFrom (l : LSN) (lsns : list LSN) : Prop :=
  match lsns with
  | [] => True
  | x :: rest => l <= x ∧ ascendingFrom x rest
  end.

(** ** The rest of the file: appendField, compareRows, Init, writeLSN,
    newGenericTable *)

(** [fmt.Sprintf("%d", z)] for an [int]. *)
Definition FormatInt (z : Z) : string :=
  if z <? 0 then "-" +:+ FormatUint (- z) else FormatUint z.

Definition columnDelimiterStr : bytes := [x09].

Definition appendField (str : bytes) (fields : list bytes) : bytes :=
  if Nat.eqb (length str) 0 then
    fold_left (λ res v, res ++ v) fields []
  else
    fold_left (λ res v, res ++ (columnDelimiterStr ++ v)) fields str.

(** [bytes.Equal]. *)
Fixpoint bytesEqual (x y : bytes) : bool :=
  match x, y with
  | [], [] => true
  | a :: x', b :: y' => Byte.eqb a b && bytesEqual x' y'
  | _, _ => false
  end.

Section CompareRows.

(** [message.TupleNull], a constant of the message package. *)
Variable TupleNull : byte.

(** The loop of compareRows; [colId] is the index of the head of [cols].
    [None] is the panic of an index out of range. *)
Fixpoint compareColumns (t : genericTable) (a b : Row) (colId : nat)
    (cols : list Column) (equal keyColumnChanged : bool) : option (bool * bool) :=
  match cols with
  | [] => Some (equal, keyColumnChanged)
  | col :: rest =>
      match columnMapping t !! Name col with
      | None => compareColumns t a b (S colId) rest equal keyColumnChanged
      | Some _ =>
          match a !! colId with
          | None => None
          | Some ta =>
              match b !! colId with
              | None => None
              | Some tb =>
                  if negb (Byte.eqb (Kind ta) TupleNull) then
                    if negb (bytesEqual (Value ta) (Value tb)) then
                      compareColumns t a b (S colId) rest false
                        (if IsKey col then true else keyColumnChanged)
                    else compareColumns t a b (S colId) rest equal keyColumnChanged
                  else if Byte.eqb (Kind tb) TupleNull then
                    compareColumns t a b (S colId) rest false
                      (if IsKey col then true else keyColumnChanged)
                  else compareColumns t a b (S colId) rest equal keyColumnChanged
              end
          end
      end
  end.

Definition compareRows (t : genericTable) (a b : Row) : option (bool * bool) :=
  compareColumns t a b 0 (tupleColumns t) true false.

(** What compareRows takes for "the same" in one column: a value in [a]
    must be the value in [b]; a NULL in [a] passes when [b] is not
    NULL. *)
Definition sameTuple (ta tb : Tuple) : bool :=
  if negb (Byte.eqb (Kind ta) TupleNull) then bytesEqual (Value ta) (Value tb)
  else negb (Byte.eqb (Kind tb) TupleNull).

End CompareRows.

(** The fields of config.Table that only newGenericTable reads. *)
Record TableSetup := {
  TupleColumns : list Column;
  ColumnMapping : gmap string ChColumn
}.

Section Constructor.

Context `{Collab : Collaborators} (env : Oracle).

(** [config.PgColumn.IsIstore], a method of the config package. *)
Variable IsIstore : PgColumn → bool.

Definition writeLSN (lsn : LSN) : M (option error) :=
  attempt call env (BufferWrite (StrBytes lsn ++ [columnDelimiter])) onerr Some ;;
  ret None.

Definition Init : M (option error) :=
  t <~ getTbl ;;
  if IsEmpty (ChBufferTable (cfg t)) then ret None
  else truncateTable env (ChBufferTable (cfg t)).

(** The names [name_i] for [i] from [min] to [max].  The loop
    [for i := min; i <= max; i++] never ends when [max] is the largest
    [int]: [None]. *)
Definition flattenNames (name : string) (min max : Z) : option (list string) :=
  if (min <=? max) && (max =? 2 ^ 63 - 1) then None
  else Some (map (λ i, name +:+ "_" +:+ FormatInt i) (seqZ min (max - min + 1))).

(** The loop of newGenericTable over [t.tupleColumns], on the three
    fields it fills. *)
Fixpoint collectColumns (tblCfg : Table) (mapping : gmap string ChColumn)
    (cols : list Column)
    (acc : gmap string ChColumn * list string * list string)
  : option (gmap string ChColumn * list string * list string) :=
  match cols with
  | [] => Some acc
  | pgCol :: rest =>
      match mapping !! Name pgCol with
      | None => collectColumns tblCfg mapping rest acc
      | Some chCol =>
          let '(cm, pgUsed, chUsed) := acc in
          let cm := <[Name pgCol := chCol]> cm in
          let pgUsed := pgUsed ++ [Name pgCol] in
          if IsIstore (default zeroPgColumn (PgColumns tblCfg !! Name pgCol)) then
            match ColumnProperties tblCfg !! Name pgCol with
            | Some columnCfg =>
                if FlattenIstore columnCfg then
                  match flattenNames (ChColumnName chCol)
                          (FlattenIstoreMin columnCfg) (FlattenIstoreMax columnCfg) with
                  | None => None
                  | Some names =>
                      collectColumns tblCfg mapping rest (cm, pgUsed, chUsed ++ names)
                  end
                else
                  collectColumns tblCfg mapping rest
                    (cm, pgUsed,
                     chUsed ++ [ChColumnName chCol +:+ "_" +:+ IstoreKeysSuffix columnCfg;
                                ChColumnName chCol +:+ "_" +:+ IstoreValuesSuffix columnCfg])
            | None => collectColumns tblCfg mapping rest (cm, pgUsed, chUsed)
            end
          else
            collectColumns tblCfg mapping rest (cm, pgUsed, chUsed ++ [ChColumnName chCol])
      end
  end.

(** newGenericTable, for the fields of [genericTable] kept here; the
    other fields of the struct start at their zero values. *)
Definition newGenericTable (tblCfg : Table) (setup : TableSetup) : option genericTable :=
  match collectColumns tblCfg (ColumnMapping setup) (TupleColumns setup) (∅, [], []) with
  | None => None
  | Some (cm, pgUsed, chUsed) =>
      Some {| cfg := tblCfg;
              chUsedColumns :=
                if String.eqb (GenerationColumn tblCfg) "" then chUsed
                else chUsed ++ [GenerationColumn tblCfg];
              pgUsedColumns := pgUsed;
              columnMapping := cm;
              bufferCmdId := 0;
              bufferRowId := 0;
              bufferFlushCnt := 0;
              flushQueries := [];
              tupleColumns := TupleColumns setup;
              inSync := false;
              syncedRows := 0;
              rowsToSync := 0;
              auxTblRowID := 0;
              syncSnapshotLSN := 0 |}
  end.

End Constructor.

(** ** More notions used to state properties *)

(** [col] is a mapped column among [cols], whose head has the index
    [colId], and [ta], [tb] are what the rows [a] and [b] hold for it. *)
Definition comparedAt (t : genericTable) (a b : Row) (colId : nat) (cols : list Column)
    (col : Column) (ta tb : Tuple) : Prop :=
  ∃ i, cols !! i = Some col
       ∧ is_Some (columnMapping t !! Name col)
       ∧ a !! (colId + i)%nat = Some ta
       ∧ b !! (colId + i)%nat = Some tb.

(** More worlds and rows for the examples. *)

(** The row (2, x): the key column differs from the one of (1, x). *)
Definition otherRow : Row :=
  [ {| Kind := x74; Value := String.list_byte_of_string "2" |};
    {| Kind := x74; Value := String.list_byte_of_string "x" |} ].

(** [message.TupleNull] is the byte 'n'. *)
Definition tupleNull : byte := x6e.

(** The configuration of the examples without a buffer table. *)
Definition plainCfg : Table := {|
  ChMainTable := {| DatabaseName := "db"; TableName := "events" |};
  ChBufferTable := {| DatabaseName := ""; TableName := "" |};
  ChSyncAuxTable := {| DatabaseName := "db"; TableName := "events_aux" |};
  PgTableNameOf := {| SchemaName := "public"; PgTable := "events" |};
  InitSyncSkipTruncate := false;
  MaxBufferLength := 2;
  FlushThreshold := 1;
  GenerationColumn := "";
  PgColumns := ∅;
  ColumnProperties := ∅;
  LsnColumnName := "lsn";
  BufferTableRowIdColumn := "row_id"
|}.

(** Three source columns, of which the last one is not mapped. *)
Definition sampleSetup : TableSetup := {|
  TupleColumns :=
    [ {| Name := "id"; IsKey := true |}; {| Name := "v"; IsKey := false |};
      {| Name := "note"; IsKey := false |} ];
  ColumnMapping :=
    {[ "id" := {| ChColumnName := "id"; ChColumnType := "UInt64" |};
       "v" := {| ChColumnName := "v"; ChColumnType := "String" |} ]}
|}.

Definition noIstore : PgColumn → bool := λ _, false.

(** The engine newGenericTable builds for [plainCfg], with one command
    staged. *)
Definition plainWorld : World :=
  match newGenericTable noIstore plainCfg sampleSetup with
  | Some t =>
      (processChTuples quietOracle 300 (Some [liveRow])
         {| tbl := t; trace := []; persStorage := ∅; generationID := 7;
            heap := sampleHeap |}).2
  | None => sampleWorld
  end.

(** A row with a NULL where another row has a value. *)
Definition nullRow : Row :=
  [ {| Kind := x74; Value := String.list_byte_of_string "1" |};
    {| Kind := x6e; Value := [] |} ].

(** Byte strings put one after the other with [sep] between them. *)
Definition joinBytes (sep : byte) (l : list bytes) : bytes :=
  match l with
  | [] => []
  | v :: rest => v ++ concat (map (cons sep) rest)
  end.

Section MoreExpected.

Context `{Collab : Collaborators}.

(** The converted values of the mapped columns among [cols], in order;
    [colId] is the index of the head of [cols]. *)
Fixpoint sinkValues (t : genericTable) (row : Row) (colId : nat) (cols : list Column)
  : list bytes :=
  match cols with
  | [] => []
  | col :: rest =>
      match columnMapping t !! Name col, row !! colId with
      | Some _, Some tup =>
          ConvertColumn
            (BaseType (default zeroPgColumn (PgColumns (cfg t) !! Name col)))
            tup
            (default zeroColumnProperty (ColumnProperties (cfg t) !! Name col))
          :: sinkValues t row (S colId) rest
      | _, _ => sinkValues t row (S colId) rest
      end
  end.

(** What the stream handler sends to the loader for the rows [set] of a
    command received outside of a sync: each row as it is, then a
    newline. *)
Fixpoint liveLines (set : list bytes) : list Call :=
  match set with
  | [] => []
  | row :: rest => BufferWrite row :: BufferWrite [newline] :: liveLines rest
  end.

Definition truncateStatement (n : ChTableName) : string :=
  "truncate table " +:+ DatabaseName n +:+ "." +:+ TableName n.

End MoreExpected.

(** * Properties *)

(** ** Machine integers *)

Lemma wrap_int_small (z : Z) : - 2 ^ 63 <= z < 2 ^ 63 → wrap_int z = z.
Proof.
  intros Hz. unfold wrap_int.
  rewrite Z.mod_small; lia.
Qed.

Lemma wrap_uint64_small (z : Z) : 0 <= z < 2 ^ 64 → wrap_uint64 z = z.
Proof. intros Hz. unfold wrap_uint64. apply Z.mod_small. lia. Qed.

Lemma wrap_int_add_l (a b : Z) : wrap_int (wrap_int a + b) = wrap_int (a + b).
Proof.
  unfold wrap_int. f_equal.
  replace ((a + 2 ^ 63) mod 2 ^ 64 - 2 ^ 63 + b + 2 ^ 63)
    with ((a + 2 ^ 63) mod 2 ^ 64 + b) by lia.
  rewrite Zplus_mod_idemp_l. f_equal. lia.
Qed.

Lemma wrap_uint64_add_l (a b : Z) :
  wrap_uint64 (wrap_uint64 a + b) = wrap_uint64 (a + b).
Proof. unfold wrap_uint64. apply Zplus_mod_idemp_l. Qed.

(** ** Memory *)

Lemma storeBytes_out (xs : bytes) :
  ∀ (m : gmap nat byte) (a a' : nat),
    (a' < a ∨ a + length xs ≤ a')%nat → storeBytes m a xs !! a' = m !! a'.
Proof.
  induction xs as [| x rest IH]; intros m a a' Hout; [done |].
  cbn [storeBytes]. cbn [length] in Hout.
  rewrite IH by lia. apply lookup_insert_ne. lia.
Qed.

Lemma storeBytes_in (xs : bytes) :
  ∀ (m : gmap nat byte) (a i : nat) (x : byte),
    xs !! i = Some x → storeBytes m a xs !! (a + i)%nat = Some x.
Proof.
  induction xs as [| y rest IH]; intros m a i x Hx; [done |].
  destruct i as [| i]; cbn [storeBytes].
  - injection Hx as ->. rewrite storeBytes_out by lia.
    rewrite Nat.add_0_r. apply lookup_insert_eq.
  - replace (a + S i)%nat with (S a + i)%nat by lia. by apply IH.
Qed.

Lemma loadBytes_storeBytes (xs : bytes) (m : gmap nat byte) (a : nat) :
  loadBytes (storeBytes m a xs) a (length xs) = xs.
Proof.
  apply list_eq. intros i. unfold loadBytes. rewrite list_lookup_fmap.
  destruct (xs !! i) as [x |] eqn:Hx.
  - rewrite lookup_seq_lt by (apply lookup_lt_Some in Hx; lia).
    cbn. unfold load. by rewrite (storeBytes_in _ _ _ _ _ Hx).
  - rewrite lookup_seq_ge by (apply lookup_ge_None in Hx; lia). done.
Qed.

Lemma loadBytes_ext (m m' : gmap nat byte) (a n : nat) :
  (∀ a', (a ≤ a' < a + n)%nat → m' !! a' = m !! a') →
  loadBytes m' a n = loadBytes m a n.
Proof.
  intros Hsame. unfold loadBytes. apply list_fmap_ext.
  intros i a' Hi. apply lookup_seq in Hi as [-> Hlt].
  unfold load. rewrite Hsame by lia. done.
Qed.

Lemma loadBytes_app (m : gmap nat byte) (a n k : nat) :
  loadBytes m a (n + k) = loadBytes m a n ++ loadBytes m (a + n) k.
Proof. unfold loadBytes. by rewrite seq_app, fmap_app. Qed.

Section Properties.

Context `{Collab : Collaborators} (env : Oracle).

(** ** The world after a step *)

Lemma withTrace_trace (w : World) : withTrace (trace w) w = w.
Proof. by destruct w. Qed.

(** ** C3: a stale batch is dropped *)

(** C3. A non-empty batch that arrives while [inSync] is false with
    [lsn < syncSnapshotLSN] is dropped as a whole: processChTuples
    answers [(false, nil)] and the world is the one it started from, so
    no row went to the loader, no flush was issued, and [bufferRowId],
    [bufferCmdId] and [bufferFlushCnt] kept their values. *)
Theorem processChTuples_drops_stale_batch
    (lsn : LSN) (row : slice) (rest : chTuples) (w : World) :
  inSync (tbl w) = false →
  lsn < syncSnapshotLSN (tbl w) →
  processChTuples env lsn (Some (row :: rest)) w = (Ret (false, None), w).
Proof.
  intros Hsync Hlsn.
  unfold processChTuples, stageTuples, bind; simpl.
  unfold bind, getTbl; simpl.
  rewrite Hsync.
  destruct (Z.ltb_spec lsn (syncSnapshotLSN (tbl w))) as [_ | Hge]; [| lia].
  reflexivity.
Qed.

(** ** C9: Truncate *)

(** C9. Truncate sets [bufferCmdId] to 0 and leaves [bufferRowId] and
    [bufferFlushCnt] as they were, whatever the sink answers to the two
    truncations. *)
Theorem Truncate_resets_only_bufferCmdId (lsn : LSN) (w : World) :
  bufferCmdId (tbl (Truncate env lsn w).2) = 0
  ∧ bufferRowId (tbl (Truncate env lsn w).2) = bufferRowId (tbl w)
  ∧ bufferFlushCnt (tbl (Truncate env lsn w).2) = bufferFlushCnt (tbl w).
Proof.
  unfold Truncate, truncateTable, orReturn, bind, modifyTbl, getTbl, call, ret; simpl.
  destruct (callErr env (trace w) _) as [e | ]; simpl; [done |].
  destruct (IsEmpty _); simpl; [done |].
  destruct (callErr env _ _) as [e | ]; simpl; done.
Qed.

(** ** C10: flushing an empty buffer *)

Lemma attemptFlushBuffer_empty (w : World) :
  bufferCmdId (tbl w) = 0 → attemptFlushBuffer env w = (Ret None, w).
Proof.
  intros H0. unfold attemptFlushBuffer, bind, getTbl; simpl.
  rewrite H0. reflexivity.
Qed.

Lemma flushBuffer_empty (w : World) :
  bufferCmdId (tbl w) = 0 → flushBuffer env w = (Ret None, w).
Proof.
  intros H0. unfold flushBuffer, maxAttempts; simpl.
  unfold bind at 1. rewrite attemptFlushBuffer_empty by done. reflexivity.
Qed.

(** C10. With [bufferCmdId = 0], attemptFlushBuffer and flushBuffer
    return nil and leave the world as it was: no call to the sink, no
    change of [bufferFlushCnt].  If moreover [bufferFlushCnt = 0],
    FlushToMainTable returns nil with the world unchanged: no promotion
    query, no truncation, no checkpoint. *)
Theorem empty_buffer_flush_is_noop (lsn : LSN) (w : World) :
  bufferCmdId (tbl w) = 0 →
  attemptFlushBuffer env w = (Ret None, w)
  ∧ flushBuffer env w = (Ret None, w)
  ∧ (bufferFlushCnt (tbl w) = 0 → FlushToMainTable env lsn w = (Ret None, w)).
Proof.
  intros H0. split; [by apply attemptFlushBuffer_empty |].
  split; [by apply flushBuffer_empty |].
  intros Hcnt. unfold FlushToMainTable, orReturn.
  unfold bind at 1. rewrite flushBuffer_empty by done.
  unfold bind, getTbl; simpl. rewrite Hcnt; simpl.
  rewrite orb_true_r. reflexivity.
Qed.

(** ** The retry loop of flushBuffer *)

Lemma attemptFlushBuffer_nonempty (w : World) :
  bufferCmdId (tbl w) ≠ 0 →
  attemptFlushBuffer env w =
    match callErr env (trace w) (flushCall (tbl w)) with
    | Some e => (Ret (Some (flushError (tbl w) e)), record (flushCall (tbl w)) w)
    | None => (Ret None, withTbl (afterFlush (tbl w)) (record (flushCall (tbl w)) w))
    end.
Proof.
  intros Hne. unfold attemptFlushBuffer, bind at 1, getTbl; simpl.
  destruct (Z.eqb_spec (bufferCmdId (tbl w)) 0) as [H0 | _]; [done |].
  unfold flushCall, flushError, flushTarget, orReturn, bind, call, ret, modifyTbl.
  destruct (inSync (tbl w)); simpl;
    destruct (callErr env (trace w) _) as [e | ]; reflexivity.
Qed.

Lemma retries_snoc (tr : list Call) (c : Call) (i : nat) :
  ((tr ++ [c]) ++ [Wait attemptInterval]) ++ retries c i = tr ++ retries c (S i).
Proof. rewrite <- !app_assoc. reflexivity. Qed.



(** One turn of the loop on a buffer that is not empty. *)
Lemma flushBufferLoop_S (n : nat) (err : option error) (w : World) :
  bufferCmdId (tbl w) ≠ 0 →
  flushBufferLoop env (S n) err w =
    match callErr env (trace w) (flushCall (tbl w)) with
    | None => (Ret None, withTbl (afterFlush (tbl w)) (record (flushCall (tbl w)) w))
    | Some e =>
        if ctxDone env (trace w ++ [flushCall (tbl w)])
        then (Ret (Some (Errorf "abort retrying" [])),
              record (Wait attemptInterval) (record (flushCall (tbl w)) w))
        else flushBufferLoop env n (Some (flushError (tbl w) e))
               (record (Wait attemptInterval) (record (flushCall (tbl w)) w))
    end.
Proof.
  intros Hne. cbn [flushBufferLoop]. unfold bind at 1.
  rewrite attemptFlushBuffer_nonempty by done.
  destruct (callErr env (trace w) (flushCall (tbl w))) as [e | ]; [| reflexivity].
  unfold bind at 1, waitOrDone. cbn [record trace].
  destruct (ctxDone env (trace w ++ [flushCall (tbl w)])); reflexivity.
Qed.

Lemma flushBufferLoop_S_empty (n : nat) (err : option error) (w : World) :
  bufferCmdId (tbl w) = 0 → flushBufferLoop env (S n) err w = (Ret None, w).
Proof.
  intros H0. cbn [flushBufferLoop]. unfold bind at 1.
  rewrite attemptFlushBuffer_empty by done. reflexivity.
Qed.

(** Whatever the sink answers, the loop ends after at most [n]
    attempts, each failed one followed by a wait, and either it leaves
    the engine as it found it or its last attempt went through. *)
Lemma flushBufferLoop_shape (n : nat) (err : option error) (w : World) :
  ∃ (k : nat) (x : option error),
    (k ≤ n)%nat
    ∧ ((flushBufferLoop env n err w
          = (Ret x, withTrace (trace w ++ retries (flushCall (tbl w)) k) w)
        ∧ (x = None → bufferCmdId (tbl w) = 0 ∨ (n = 0%nat ∧ err = None)))
       ∨ ((k < n)%nat
          ∧ flushBufferLoop env n err w
              = (Ret None,
                 withTbl (afterFlush (tbl w))
                   (withTrace (trace w ++ retries (flushCall (tbl w)) k
                                 ++ [flushCall (tbl w)]) w)))).
Proof.
  revert err w. induction n as [| n IH]; intros err w.
  { exists 0%nat, err. split; [lia |]. left. split; [| by right].
    simpl. rewrite app_nil_r, withTrace_trace. reflexivity. }
  destruct (Z.eq_dec (bufferCmdId (tbl w)) 0) as [H0 | Hne].
  { rewrite flushBufferLoop_S_empty by done.
    exists 0%nat, None. split; [lia |]. left. split; [| by left].
    simpl. rewrite app_nil_r, withTrace_trace. reflexivity. }
  rewrite flushBufferLoop_S by done.
  destruct (callErr env (trace w) (flushCall (tbl w))) as [e | ].
  - destruct (ctxDone env (trace w ++ [flushCall (tbl w)])).
    + exists 1%nat, (Some (Errorf "abort retrying" [])). split; [lia |].
      left. split; [| done].
      unfold record, withTrace. cbn. rewrite <- app_assoc. reflexivity.
    + set (w1 := record (Wait attemptInterval) (record (flushCall (tbl w)) w)).
      destruct (IH (Some (flushError (tbl w) e)) w1) as (k & x & Hk & Hcase).
      change (tbl w1) with (tbl w) in Hcase.
      change (trace w1)
        with ((trace w ++ [flushCall (tbl w)]) ++ [Wait attemptInterval]) in Hcase.
      exists (S k), x. split; [lia |].
      destruct Hcase as [[Hleft Hx] | [Hlt Hright]];
        [left; split | right; split; [lia |]].
      * etrans; [exact Hleft |]. rewrite retries_snoc. reflexivity.
      * intros ->. destruct (Hx eq_refl) as [H0 | [_ Hsome]]; [by left | done].
      * etrans; [exact Hright |].
        rewrite app_assoc, retries_snoc, <- app_assoc. reflexivity.
  - exists 0%nat, None. split; [lia |]. right. split; [lia |]. reflexivity.
Qed.

(** ** C8: the bounded retry of flushBuffer *)


(** ** C6: a batch received during the sync *)

Lemma withHeap_heap (w : World) : withHeap (heap w) w = w.
Proof. by destruct w. Qed.

(** An [append] to a row that started as the slice [s] writes in the
    spare capacity of [s] or nowhere, and the row then shows the bytes
    it showed with the new ones after them. *)
Lemma appendTo_grown (xs : bytes) (s : slice) (row : rowVar) (w : World) :
  grownFrom s row →
  ∃ row' h',
    appendTo xs row w = (Ret row', withHeap h' w)
    ∧ grownFrom s row'
    ∧ rowBytes h' row' = rowBytes (heap w) row ++ xs
    ∧ ∀ a, ¬ spare s a → h' !! a = heap w !! a.
Proof.
  intros Hrow. destruct row as [s' | b]; cbn [appendTo].
  - destruct Hrow as (Hptr & Hcap & Hlen).
    destruct (Nat.leb_spec (len s' + length xs) (cap s')) as [Hfits | Hfull].
    + eexists _, _. split; [reflexivity |].
      split; [cbn; lia |]. split.
      * unfold rowBytes, sliceBytes. cbn [ptr len]. rewrite loadBytes_app. f_equal.
        -- apply loadBytes_ext. intros a' Ha'. apply storeBytes_out. lia.
        -- apply loadBytes_storeBytes.
      * intros a Ha. apply storeBytes_out. unfold spare in Ha. lia.
    + exists (Moved (sliceBytes (heap w) s' ++ xs)), (heap w).
      rewrite withHeap_heap. repeat split; done.
  - exists (Moved (b ++ xs)), (heap w).
    rewrite withHeap_heap. repeat split; done.
Qed.

(** A row that is clear of [s] shows the same bytes after appends to [s]. *)
Lemma contents_clear (s : slice) (h h' : gmap nat byte) (set : chTuples) :
  (∀ a, ¬ spare s a → h' !! a = h !! a) →
  forallb (clearOf s) set = true →
  contents h' set = contents h set.
Proof.
  intros Hout Hclear. unfold contents. apply map_ext_in.
  intros later Hin. rewrite forallb_forall in Hclear.
  specialize (Hclear later Hin). unfold clearOf in Hclear.
  apply loadBytes_ext. intros a Ha. apply Hout. unfold spare.
  rewrite !orb_true_iff, !Nat.leb_le, Nat.eqb_eq in Hclear. lia.
Qed.

Lemma accepted_app (tr l1 l2 : list Call) :
  accepted env tr (l1 ++ l2) ↔ accepted env tr l1 ∧ accepted env (tr ++ l1) l2.
Proof.
  revert tr. induction l1 as [| c l1 IH]; intros tr; simpl.
  - rewrite app_nil_r. tauto.
  - rewrite IH, <- app_assoc. simpl. tauto.
Qed.

(** In a list of accepted calls each call is answered without error. *)
Lemma accepted_lookup (lines : list Call) :
  ∀ (tr : list Call) (k : nat) (c : Call),
    accepted env tr lines →
    lines !! k = Some c →
    callErr env (tr ++ take k lines) c = None.
Proof.
  induction lines as [| c0 lines IH]; intros tr k c Hacc Hc; [done |].
  destruct Hacc as [Hc0 Hrest]. destruct k as [| k].
  - injection Hc as <-. cbn [take]. by rewrite app_nil_r.
  - cbn [take]. cbn in Hc.
    replace (tr ++ c0 :: take k lines) with ((tr ++ [c0]) ++ take k lines)
      by (by rewrite <- app_assoc).
    by apply IH.
Qed.

(** One turn of the loop of processChTuples: [val] is what goes to the
    loader for the row, [h'] the memory after the appends. *)
Lemma writeRows_cons (lsn : LSN) (row : slice) (rest : chTuples) (w : World) :
  ∃ (val : bytes) (h' : gmap nat byte),
    (∀ a, ¬ spare row a → h' !! a = heap w !! a)
    ∧ (inSync (tbl w) = false → h' = heap w ∧ val = sliceBytes (heap w) row)
    ∧ (inSync (tbl w) = true →
       val = sliceBytes (heap w) row ++ [columnDelimiter]
               ++ bytes_of (FormatUint (auxTblRowID (tbl w)))
               ++ [columnDelimiter] ++ StrBytes lsn)
    ∧ writeRows env lsn (row :: rest) w =
        if negb (inSync (tbl w)) && (lsn <? syncSnapshotLSN (tbl w))
        then (Ret (Some (false, None)), w)
        else
          let w1 :=
            withHeap h'
              (withTbl (if inSync (tbl w)
                        then set_auxTblRowID (wrap_uint64 (auxTblRowID (tbl w) + 1)) (tbl w)
                        else tbl w) w) in
          match callErr env (trace w) (BufferWrite val) with
          | Some e => (Ret (Some (false, Some e)), record (BufferWrite val) w1)
          | None =>
              match callErr env (trace w ++ [BufferWrite val]) (BufferWrite [newline]) with
              | Some e =>
                  (Ret (Some (false, Some e)),
                   record (BufferWrite [newline]) (record (BufferWrite val) w1))
              | None =>
                  writeRows env lsn rest
                    (withTbl
                       (set_bufferRowId (wrap_int (bufferRowId (tbl w1) + 1)) (tbl w1))
                       (record (BufferWrite [newline]) (record (BufferWrite val) w1)))
              end
          end.
Proof.
  destruct (inSync (tbl w)) eqn:Hsync.
  - destruct (appendTo_grown [columnDelimiter] row (Shared row) w)
      as (r1 & h1 & E1 & G1 & B1 & O1); [cbn; lia |].
    destruct (appendTo_grown (bytes_of (FormatUint (auxTblRowID (tbl w)))) row r1
                (withHeap h1 w) G1) as (r2 & h2 & E2 & G2 & B2 & O2).
    destruct (appendTo_grown [columnDelimiter] row r2 (withHeap h2 w) G2)
      as (r3 & h3 & E3 & G3 & B3 & O3).
    destruct (appendTo_grown (StrBytes lsn) row r3 (withHeap h3 w) G3)
      as (r4 & h4 & E4 & G4 & B4 & O4).
    cbn [heap withHeap] in *.
    exists (rowBytes h4 r4), h4.
    split; [intros a Ha; rewrite O4, O3, O2, O1; done |].
    split; [discriminate |].
    split.
    { intros _. rewrite B4, B3, B2, B1. cbn [rowBytes]. by rewrite <- !app_assoc. }
    cbn [negb andb writeRows]. unfold bind at 1, getTbl. rewrite Hsync.
    unfold bind. rewrite E1. cbv beta iota. rewrite E2. cbv beta iota.
    change (withHeap h2 (withHeap h1 w)) with (withHeap h2 w). rewrite E3.
    cbv beta iota.
    change (withHeap h3 (withHeap h2 w)) with (withHeap h3 w). rewrite E4.
    cbv beta iota zeta.
    unfold modifyTbl, readRow, writeLine, orReturn, bind, call, ret.
    cbn [withHeap withTbl record trace tbl persStorage generationID heap].
    destruct (callErr env (trace w) (BufferWrite (rowBytes h4 r4))); [reflexivity |].
    cbn [withHeap withTbl record trace tbl persStorage generationID heap].
    destruct (callErr env _ (BufferWrite [newline])); reflexivity.
  - exists (sliceBytes (heap w) row), (heap w).
    split; [done |]. split; [done |]. split; [discriminate |].
    cbn [negb andb writeRows]. unfold bind at 1, getTbl. rewrite Hsync.
    destruct (lsn <? syncSnapshotLSN (tbl w)); [reflexivity |].
    cbv beta iota zeta.
    unfold modifyTbl, readRow, writeLine, orReturn, bind, call, ret.
    cbn [rowBytes withHeap withTbl record trace tbl persStorage generationID heap].
    destruct (callErr env (trace w) (BufferWrite (sliceBytes (heap w) row)));
      [reflexivity |].
    cbn [withHeap withTbl record trace tbl persStorage generationID heap].
    destruct (callErr env _ (BufferWrite [newline])); reflexivity.
Qed.

(** One row of the loop of processChTuples while [inSync] holds: the
    function returns at the first of the two writes that fails, or goes
    on with the next row. *)
Lemma writeRows_in_sync_turn (lsn : LSN) (row : slice) (rest : chTuples) (w : World) :
  inSync (tbl w) = true →
  ∃ h1 : gmap nat byte,
    (∀ a, ¬ spare row a → h1 !! a = heap w !! a)
    ∧ ((∃ (k : nat) (c : Call) (e : error),
          auxLines lsn (auxTblRowID (tbl w)) [sliceBytes (heap w) row] !! k = Some c
          ∧ accepted env (trace w)
              (take k (auxLines lsn (auxTblRowID (tbl w)) [sliceBytes (heap w) row]))
          ∧ callErr env
              (trace w
                 ++ take k (auxLines lsn (auxTblRowID (tbl w)) [sliceBytes (heap w) row]))
              c = Some e
          ∧ writeRows env lsn (row :: rest) w
            = (Ret (Some (false, Some e)),
               withHeap h1
                 (withTrace
                    (trace w
                       ++ take (S k)
                            (auxLines lsn (auxTblRowID (tbl w)) [sliceBytes (heap w) row]))
                    (withTbl
                       (set_auxTblRowID (wrap_uint64 (auxTblRowID (tbl w) + 1)) (tbl w))
                       w))))
       ∨ (accepted env (trace w)
            (auxLines lsn (auxTblRowID (tbl w)) [sliceBytes (heap w) row])
          ∧ writeRows env lsn (row :: rest) w
            = writeRows env lsn rest
                (withHeap h1
                   (withTrace
                      (trace w
                         ++ auxLines lsn (auxTblRowID (tbl w)) [sliceBytes (heap w) row])
                      (withTbl
                         (set_bufferRowId (wrap_int (bufferRowId (tbl w) + 1))
                            (set_auxTblRowID (wrap_uint64 (auxTblRowID (tbl w) + 1))
                               (tbl w)))
                         w))))).
Proof.
  intros Hsync.
  destruct (writeRows_cons lsn row rest w) as (val & h1 & Hout & _ & Hval & Hrun).
  specialize (Hval Hsync). exists h1. split; [exact Hout |].
  rewrite Hrun, Hsync. cbn [negb andb auxLines]. cbv zeta. rewrite <- Hval.
  destruct (callErr env (trace w) (BufferWrite val)) as [e | ] eqn:E1.
  { left. exists 0%nat, (BufferWrite val), e.
    split; [reflexivity |]. split; [exact I |].
    split; [cbn [take]; by rewrite app_nil_r |]. reflexivity. }
  destruct (callErr env (trace w ++ [BufferWrite val]) (BufferWrite [newline]))
    as [e | ] eqn:E2.
  { left. exists 1%nat, (BufferWrite [newline]), e.
    split; [reflexivity |]. split; [by split |].
    split; [exact E2 |].
    unfold record, withHeap, withTrace, withTbl.
    cbn [take tbl trace persStorage generationID heap].
    rewrite <- app_assoc. reflexivity. }
  right. split; [by repeat split |].
  unfold record, withHeap, withTrace, withTbl.
  cbn [tbl trace persStorage generationID heap].
  rewrite <- app_assoc. reflexivity.
Qed.

(** The loop of processChTuples while [inSync] holds, on rows that are
    apart: it returns at the first write that fails, or sends all the
    lines. *)
Lemma writeRows_in_sync (lsn : LSN) (rest : chTuples) :
  ∀ (row : slice) (w : World),
    inSync (tbl w) = true →
    apart (row :: rest) = true →
    ∃ h' : gmap nat byte,
      (∀ a, Forall (λ s, ¬ spare s a) (row :: rest) → h' !! a = heap w !! a)
      ∧ ((∃ (k : nat) (c : Call) (e : error) (t' : genericTable),
            auxLines lsn (auxTblRowID (tbl w)) (contents (heap w) (row :: rest)) !! k
              = Some c
            ∧ accepted env (trace w)
                (take k (auxLines lsn (auxTblRowID (tbl w))
                           (contents (heap w) (row :: rest))))
            ∧ callErr env
                (trace w
                   ++ take k (auxLines lsn (auxTblRowID (tbl w))
                                (contents (heap w) (row :: rest))))
                c = Some e
            ∧ cfg t' = cfg (tbl w)
            ∧ bufferCmdId t' = bufferCmdId (tbl w)
            ∧ bufferFlushCnt t' = bufferFlushCnt (tbl w)
            ∧ inSync t' = true
            ∧ writeRows env lsn (row :: rest) w
              = (Ret (Some (false, Some e)),
                 withHeap h'
                   (withTrace
                      (trace w
                         ++ take (S k)
                              (auxLines lsn (auxTblRowID (tbl w))
                                 (contents (heap w) (row :: rest))))
                      (withTbl t' w))))
         ∨ (accepted env (trace w)
              (auxLines lsn (auxTblRowID (tbl w)) (contents (heap w) (row :: rest)))
            ∧ writeRows env lsn (row :: rest) w
              = (Ret None,
                 withHeap h'
                   (withTrace
                      (trace w ++ auxLines lsn (auxTblRowID (tbl w))
                                    (contents (heap w) (row :: rest)))
                      (withTbl
                         (set_bufferRowId
                            (wrap_int
                               (bufferRowId (tbl w) + Z.of_nat (length (row :: rest))))
                            (set_auxTblRowID
                               (wrap_uint64
                                  (auxTblRowID (tbl w) + Z.of_nat (length (row :: rest))))
                               (tbl w)))
                         w))))).
Proof.
  induction rest as [| row2 rest IH]; intros row w Hsync Hapart.
  - destruct (writeRows_in_sync_turn lsn row [] w Hsync) as (h1 & Hout & Hturn).
    exists h1. split; [intros a Ha; apply Hout; by inversion Ha |].
    destruct Hturn as [(k & c & e & Hc & Hacc & Herr & Hrun) | (Hacc & Hrun)].
    + left. exists k, c, e.
      exists (set_auxTblRowID (wrap_uint64 (auxTblRowID (tbl w) + 1)) (tbl w)).
      split; [exact Hc |]. split; [exact Hacc |].
      split; [exact Herr |]. do 3 (split; [reflexivity |]).
      split; [exact Hsync | exact Hrun].
    + right. split; [exact Hacc |]. rewrite Hrun. reflexivity.
  - cbn [apart] in Hapart. apply andb_true_iff in Hapart as [Hclear Hapart].
    destruct (writeRows_in_sync_turn lsn row (row2 :: rest) w Hsync)
      as (h1 & Hout & Hturn).
    pose proof (contents_clear row (heap w) h1 (row2 :: rest) Hout Hclear) as Hsame.
    destruct Hturn as [(k & c & e & Hc & Hacc & Herr & Hrun) | (Hacc & Hrun)].
    + exists h1. split; [intros a Ha; apply Hout; by inversion Ha |].
      left. exists k, c, e.
      exists (set_auxTblRowID (wrap_uint64 (auxTblRowID (tbl w) + 1)) (tbl w)).
      cbn [contents map auxLines] in *.
      destruct k as [| [| k]]; [| | done];
        (split; [exact Hc |]; split; [exact Hacc |]; split; [exact Herr |];
         do 3 (split; [reflexivity |]); split; [exact Hsync | exact Hrun]).
    + rewrite Hrun.
      match goal with
      | |- context [writeRows env lsn (row2 :: rest) ?w2] =>
          destruct (IH row2 w2 Hsync Hapart) as (h2 & Hout2 & Hcase)
      end.
      cbn [withHeap withTrace withTbl tbl trace heap set_bufferRowId set_auxTblRowID
           auxTblRowID bufferRowId cfg bufferCmdId bufferFlushCnt inSync] in Hcase.
      rewrite Hsame in Hcase.
      exists h2. split.
      { intros a Ha. inversion Ha as [| ? ? Hrow_a Hrest_a]; subst.
        rewrite Hout2 by done. cbn [heap withHeap]. by apply Hout. }
      destruct Hacc as (Hrow & Hnl & _).
      destruct Hcase
        as [(k & c & e & t' & Hc & Hacc2 & Herr & Hcfg & Hcmd & Hcnt & Hin & Hrun2)
           | (Hacc2 & Hrun2)].
      * left. exists (S (S k)), c, e, t'.
        cbn [contents map auxLines take] in *.
        split; [exact Hc |].
        split; [split; [exact Hrow |]; split; [exact Hnl |];
                rewrite <- app_assoc; exact Hacc2 |].
        split; [rewrite <- app_assoc in Herr; exact Herr |].
        do 4 (split; [done |]).
        rewrite Hrun2. f_equal.
        unfold withHeap, withTrace, withTbl.
        cbn [tbl trace persStorage generationID heap take].
        rewrite <- !app_assoc. reflexivity.
      * right. cbn [contents map auxLines] in *.
        split; [split; [exact Hrow |]; split; [exact Hnl |];
                rewrite <- app_assoc; exact Hacc2 |].
        rewrite Hrun2. f_equal.
        unfold withHeap, withTrace, withTbl.
        cbn [tbl trace persStorage generationID heap].
        cbn [set_bufferRowId set_auxTblRowID bufferRowId auxTblRowID cfg chUsedColumns
             pgUsedColumns columnMapping bufferCmdId bufferFlushCnt flushQueries
             tupleColumns inSync syncedRows rowsToSync syncSnapshotLSN].
        rewrite wrap_int_add_l, wrap_uint64_add_l.
        replace (Z.of_nat (length (row :: row2 :: rest)))
          with (1 + Z.of_nat (length (row2 :: rest)))
          by (cbn [length]; lia).
        rewrite !Z.add_assoc, <- !app_assoc. reflexivity.
Qed.

Lemma attemptFlushBuffer_in_sync_call (w : World) :
  inSync (tbl w) = true →
  bufferCmdId (tbl w) ≠ 0 →
  trace (attemptFlushBuffer env w).2
    = trace w ++ [BufferFlush (ChSyncAuxTable (cfg (tbl w))) (syncAuxTableColumns (tbl w))].
Proof.
  intros Hsync Hne. rewrite attemptFlushBuffer_nonempty by done.
  unfold flushCall. rewrite Hsync.
  destruct (callErr env (trace w) _); reflexivity.
Qed.

(** C6, as the code has it.  The rows are appended to in place, in the
    arrays of the caller.  For a non-empty batch received while [inSync]
    holds, of which no row shows bytes of the spare capacity of a row
    before it: the rows go to the loader one after the other, each with
    a tab, the decimal [auxTblRowID] of the moment, a tab and the LSN
    appended, and a newline after it, up to the first write the loader
    refuses, if any; the memory has changed in the spare capacity of the
    rows at most.  When the loader takes all the writes, and then only,
    the function reaches its auto-flush, and then [auxTblRowID] has
    grown by one per row, [bufferRowId] by the number of rows and
    [bufferCmdId] by one (in 64-bit arithmetic, so by the plain sum when
    that fits).  When it refuses one, processChTuples returns false and
    the error of that write, and [bufferCmdId] is as it was.  A flush
    made while [inSync] holds sends the buffer to the sync aux table
    with its columns. *)
Theorem processChTuples_in_sync
    (lsn : LSN) (row : slice) (rest : chTuples) (w : World) :
  inSync (tbl w) = true →
  apart (row :: rest) = true →
  ∃ (r : returned (bool * option error)) (w1 : World) (k : nat),
    stageTuples env lsn (Some (row :: rest)) w = (Ret r, w1)
    ∧ trace w1
        = trace w
          ++ take k (auxLines lsn (auxTblRowID (tbl w)) (contents (heap w) (row :: rest)))
    ∧ (∀ a, Forall (λ s, ¬ spare s a) (row :: rest) → heap w1 !! a = heap w !! a)
    ∧ bufferFlushCnt (tbl w1) = bufferFlushCnt (tbl w)
    ∧ inSync (tbl w1) = true
    ∧ (accepted env (trace w)
         (auxLines lsn (auxTblRowID (tbl w)) (contents (heap w) (row :: rest)))
       ↔ r = None)
    ∧ match r with
      | None =>
          processChTuples env lsn (Some (row :: rest)) w = flushAndSignal env w1
          ∧ trace w1
              = trace w
                ++ auxLines lsn (auxTblRowID (tbl w)) (contents (heap w) (row :: rest))
          ∧ auxTblRowID (tbl w1)
              = wrap_uint64 (auxTblRowID (tbl w) + Z.of_nat (length (row :: rest)))
          ∧ bufferRowId (tbl w1)
              = wrap_int (bufferRowId (tbl w) + Z.of_nat (length (row :: rest)))
          ∧ bufferCmdId (tbl w1) = wrap_int (bufferCmdId (tbl w) + 1)
          ∧ (0 <= auxTblRowID (tbl w) + Z.of_nat (length (row :: rest)) < 2 ^ 64 →
             auxTblRowID (tbl w1)
             = auxTblRowID (tbl w) + Z.of_nat (length (row :: rest)))
          ∧ (- 2 ^ 63 <= bufferRowId (tbl w) + Z.of_nat (length (row :: rest)) < 2 ^ 63 →
             bufferRowId (tbl w1)
             = bufferRowId (tbl w) + Z.of_nat (length (row :: rest)))
          ∧ (- 2 ^ 63 <= bufferCmdId (tbl w) + 1 < 2 ^ 63 →
             bufferCmdId (tbl w1) = bufferCmdId (tbl w) + 1)
      | Some out =>
          ∃ (k' : nat) (c : Call) (e : error),
            k = S k'
            ∧ auxLines lsn (auxTblRowID (tbl w)) (contents (heap w) (row :: rest)) !! k'
                = Some c
            ∧ accepted env (trace w)
                (take k' (auxLines lsn (auxTblRowID (tbl w))
                            (contents (heap w) (row :: rest))))
            ∧ callErr env
                (trace w
                   ++ take k' (auxLines lsn (auxTblRowID (tbl w))
                                 (contents (heap w) (row :: rest))))
                c = Some e
            ∧ out = (false, Some e)
            ∧ processChTuples env lsn (Some (row :: rest)) w = (Ret (false, Some e), w1)
            ∧ bufferCmdId (tbl w1) = bufferCmdId (tbl w)
      end
    ∧ ∀ w2 : World,
        inSync (tbl w2) = true →
        bufferCmdId (tbl w2) ≠ 0 →
        trace (attemptFlushBuffer env w2).2
          = trace w2 ++ [BufferFlush (ChSyncAuxTable (cfg (tbl w2)))
                           (syncAuxTableColumns (tbl w2))].
Proof.
  intros Hsync Hapart.
  destruct (writeRows_in_sync lsn rest row w Hsync Hapart) as (h' & Hout & Hcase).
  destruct Hcase
    as [(k & c & e & t' & Hc & Hacc & Herr & Hcfg & Hcmd & Hcnt & Hin & Hrun)
       | (Hacc & Hrun)].
  - exists (Some (false, Some e)). eexists. exists (S k).
    split.
    { unfold stageTuples, bind at 1. rewrite Hrun. reflexivity. }
    split; [reflexivity |]. split; [exact Hout |]. split; [exact Hcnt |].
    split; [exact Hin |]. split.
    { split; [| discriminate]. intros Hall.
      pose proof (accepted_lookup _ _ _ _ Hall Hc) as Hnone. congruence. }
    split; [| apply attemptFlushBuffer_in_sync_call].
    exists k, c, e. do 5 (split; [done |]). split; [| exact Hcmd].
    unfold processChTuples, bind at 1, stageTuples, bind at 1. rewrite Hrun.
    reflexivity.
  - exists None. eexists.
    exists (length (auxLines lsn (auxTblRowID (tbl w)) (contents (heap w) (row :: rest)))).
    split.
    { unfold stageTuples, bind at 1. rewrite Hrun.
      unfold bind, modifyTbl, ret. reflexivity. }
    split; [by rewrite firstn_all |]. split; [exact Hout |].
    split; [reflexivity |]. split; [exact Hsync |]. split; [done |].
    split; [| apply attemptFlushBuffer_in_sync_call].
    split.
    { unfold processChTuples, bind at 1, stageTuples, bind at 1. rewrite Hrun.
      unfold bind, modifyTbl, ret. reflexivity. }
    do 4 (split; [reflexivity |]).
    split; [intros Hrange; by apply wrap_uint64_small |].
    split; [intros Hrange; by apply wrap_int_small |].
    intros Hrange; by apply wrap_int_small.
Qed.

(** ** C7: the auto-flush and the merge signal *)


Lemma flushBuffer_returns (w : World) :
  ∃ r w', flushBuffer env w = (Ret r, w')
          ∧ (r = None → bufferCmdId (tbl w) ≠ 0 → tbl w' = afterFlush (tbl w))
          ∧ (r = None → bufferCmdId (tbl w) = 0 → w' = w)
          ∧ (r ≠ None → tbl w' = tbl w)
          ∧ persStorage w' = persStorage w
          ∧ generationID w' = generationID w.
Proof.
  destruct (Z.eq_dec (bufferCmdId (tbl w)) 0) as [H0 | Hne].
  { exists None, w. rewrite flushBuffer_empty by done. repeat split; done. }
  destruct (flushBufferLoop_shape maxAttempts None w) as (k & x & Hk & Hcase).
  fold (flushBuffer env) in Hcase.
  destruct Hcase as [[Heq Hx] | [_ Heq]]; rewrite Heq.
  - destruct x as [e | ].
    + eexists _, _. split; [reflexivity |]. repeat split; done.
    + destruct (Hx eq_refl) as [H0 | [Hmax _]]; [done | discriminate Hmax].
  - eexists _, _. split; [reflexivity |]. repeat split; done.
Qed.


Lemma flushAndSignal_no_flush (w : World) :
  bufferCmdId (tbl w) ≠ MaxBufferLength (cfg (tbl w)) →
  flushAndSignal env w
    = (Ret (if IsEmpty (ChBufferTable (cfg (tbl w))) then false
            else FlushThreshold (cfg (tbl w)) <=? bufferFlushCnt (tbl w), None), w).
Proof.
  intros Hne. unfold flushAndSignal, orReturn, bind, getTbl, ret; simpl.
  destruct (Z.eqb_spec (bufferCmdId (tbl w)) (MaxBufferLength (cfg (tbl w))));
    [done |].
  destruct (IsEmpty _); reflexivity.
Qed.

Lemma flushAndSignal_flush (w w' : World) (r : option error) :
  bufferCmdId (tbl w) = MaxBufferLength (cfg (tbl w)) →
  flushBuffer env w = (Ret r, w') →
  flushAndSignal env w
    = match r with
      | Some e => (Ret (false, Some e), w')
      | None => (Ret (if IsEmpty (ChBufferTable (cfg (tbl w'))) then false
                      else FlushThreshold (cfg (tbl w')) <=? bufferFlushCnt (tbl w'),
                      None), w')
      end.
Proof.
  intros Heq Hflush. unfold flushAndSignal, orReturn.
  unfold bind at 1, getTbl. rewrite Heq, Z.eqb_refl.
  unfold bind at 1. rewrite Hflush.
  destruct r as [e | ]; [reflexivity |].
  unfold bind, ret. destruct (IsEmpty _); reflexivity.
Qed.

(** The loop of processChTuples always ends; it makes no flush and
    touches neither the configuration nor the counters of the flushes.
    When it returns from the function, the boolean is false, and with no
    error the batch was dropped at its first row. *)
Lemma writeRows_returns (lsn : LSN) (set : chTuples) :
  ∀ w : World,
    ∃ (r : returned (bool * option error)) (w1 : World),
      writeRows env lsn set w = (Ret r, w1)
      ∧ cfg (tbl w1) = cfg (tbl w)
      ∧ bufferCmdId (tbl w1) = bufferCmdId (tbl w)
      ∧ bufferFlushCnt (tbl w1) = bufferFlushCnt (tbl w)
      ∧ inSync (tbl w1) = inSync (tbl w)
      ∧ syncSnapshotLSN (tbl w1) = syncSnapshotLSN (tbl w)
      ∧ persStorage w1 = persStorage w
      ∧ (∃ added, trace w1 = trace w ++ added
                  ∧ Forall (λ c, isBufferFlush c = false) added)
      ∧ ∀ out, r = Some out →
               out.1 = false
               ∧ (out.2 = None →
                  inSync (tbl w) = false ∧ lsn < syncSnapshotLSN (tbl w) ∧ w1 = w).
Proof.
  induction set as [| row rest IH]; intros w.
  { exists None, w. split; [reflexivity |]. do 6 (split; [done |]).
    split; [exists []; by rewrite app_nil_r | done]. }
  destruct (writeRows_cons lsn row rest w) as (val & h' & _ & _ & _ & Hrun).
  rewrite Hrun. clear Hrun.
  destruct (inSync (tbl w)) eqn:Hsync; cbn [negb andb].
  - cbv zeta.
    destruct (callErr env (trace w) (BufferWrite val)) as [e | ].
    { eexists _, _. split; [reflexivity |]. do 6 (split; [done |]).
      split; [exists [BufferWrite val]; split; [done | by repeat constructor] |].
      intros out [= <-]. split; [done | discriminate]. }
    destruct (callErr env _ (BufferWrite [newline])) as [e | ].
    { eexists _, _. split; [reflexivity |]. do 6 (split; [done |]).
      split.
      - exists [BufferWrite val; BufferWrite [newline]].
        split; [cbn; by rewrite <- app_assoc | by repeat constructor].
      - intros out [= <-]. split; [done | discriminate]. }
    match goal with
    | |- context [writeRows env lsn rest ?w2] =>
        destruct (IH w2)
          as (r & w1 & Heq & Hcfg & Hcmd & Hcnt & Hin & Hsnap & Hstore & Htr & Hout)
    end.
    exists r, w1. split; [exact Heq |].
    cbn in Hcfg, Hcmd, Hcnt, Hin, Hsnap, Hstore, Htr, Hout.
    do 6 (split; [congruence |]). split.
    + destruct Htr as (added & Htr & Hno).
      exists (BufferWrite val :: BufferWrite [newline] :: added).
      split; [rewrite Htr, <- !app_assoc; reflexivity | by repeat constructor].
    + intros out Hr. destruct (Hout out Hr) as [Hfalse Hdrop].
      split; [done |]. intros Hnil. destruct (Hdrop Hnil) as (Hno & _).
      rewrite Hsync in Hno. discriminate Hno.
  - destruct (Z.ltb_spec lsn (syncSnapshotLSN (tbl w))) as [Hlt | Hge].
    { exists (Some (false, None)), w. split; [reflexivity |].
      do 6 (split; [done |]).
      split; [exists []; by rewrite app_nil_r |].
      intros out [= <-]. done. }
    cbv zeta.
    destruct (callErr env (trace w) (BufferWrite val)) as [e | ].
    { eexists _, _. split; [reflexivity |]. do 6 (split; [done |]).
      split; [exists [BufferWrite val]; split; [done | by repeat constructor] |].
      intros out [= <-]. split; [done | discriminate]. }
    destruct (callErr env _ (BufferWrite [newline])) as [e | ].
    { eexists _, _. split; [reflexivity |]. do 6 (split; [done |]).
      split.
      - exists [BufferWrite val; BufferWrite [newline]].
        split; [cbn; by rewrite <- app_assoc | by repeat constructor].
      - intros out [= <-]. split; [done | discriminate]. }
    match goal with
    | |- context [writeRows env lsn rest ?w2] =>
        destruct (IH w2)
          as (r & w1 & Heq & Hcfg & Hcmd & Hcnt & Hin & Hsnap & Hstore & Htr & Hout)
    end.
    exists r, w1. split; [exact Heq |].
    cbn in Hcfg, Hcmd, Hcnt, Hin, Hsnap, Hstore, Htr, Hout.
    do 6 (split; [congruence |]). split.
    + destruct Htr as (added & Htr & Hno).
      exists (BufferWrite val :: BufferWrite [newline] :: added).
      split; [rewrite Htr, <- !app_assoc; reflexivity | by repeat constructor].
    + intros out Hr. destruct (Hout out Hr) as [Hfalse Hdrop].
      split; [done |]. intros Hnil. destruct (Hdrop Hnil) as (_ & Hlt & _).
      lia.
Qed.



(** ** What a computation leaves alone *)

Section Frames.

Context {R : World → World → Prop} (F : frame R).

Lemma keeps_ret {A} (a : A) : keeps R (ret a).
Proof. intros w. apply (frame_refl _ F). Qed.

Lemma keeps_getTbl : keeps R getTbl.
Proof. intros w. apply (frame_refl _ F). Qed.

Lemma keeps_bind {A B} (c : M A) (k : A → M B) :
  keeps R c → (∀ a, keeps R (k a)) → keeps R (bind c k).
Proof.
  intros Hc Hk w. unfold bind. specialize (Hc w).
  destruct (c w) as [[a | why] w1]; simpl in *; [| done].
  eapply (frame_trans _ F); [exact Hc | apply Hk].
Qed.

Lemma keeps_orReturn {A} (c : M (option error)) (onErr : error → A) (k : M A) :
  keeps R c → keeps R k → keeps R (orReturn c onErr k).
Proof.
  intros Hc Hk. apply keeps_bind; [done |].
  intros [e | ]; [apply keeps_ret | done].
Qed.

Lemma keeps_modifyTbl (f : genericTable → genericTable) :
  (∀ t, cfg (f t) = cfg t) → (∀ t, inSync (f t) = inSync t) →
  keeps R (modifyTbl f).
Proof. intros Hcfg Hsync w. by apply (frame_update _ F f w). Qed.

Lemma keeps_call (c : Call) : isPersWrite c = false → keeps R (call env c).
Proof. intros Hc w. by apply (frame_record _ F). Qed.

Lemma keeps_waitOrDone : keeps R (waitOrDone env).
Proof. intros w. by apply (frame_record _ F). Qed.

(** The straight-line pieces. *)
Ltac keeps_auto :=
  repeat first
    [ apply keeps_ret
    | apply keeps_getTbl
    | apply keeps_waitOrDone
    | apply keeps_call; reflexivity
    | apply keeps_modifyTbl; intros; reflexivity
    | apply keeps_orReturn
    | apply keeps_bind; [| intros ?]
    | assumption ].

Lemma keeps_writeLine (val : bytes) : keeps R (writeLine env val).
Proof. unfold writeLine. keeps_auto. Qed.

Lemma keeps_truncateTable (tableName : ChTableName) :
  keeps R (truncateTable env tableName).
Proof. unfold truncateTable. keeps_auto. Qed.

Lemma keeps_pgStatLiveTuples : keeps R (pgStatLiveTuples env).
Proof.
  intros w. unfold pgStatLiveTuples.
  destruct (liveTuples env (trace w)) as [rows valid].
  by apply (frame_record _ F).
Qed.

Lemma keeps_deltaSize (lsn : LSN) : keeps R (deltaSize env lsn).
Proof.
  intros w. unfold deltaSize.
  destruct (callErr env _ _); [by apply (frame_record _ F) |].
  destruct (queryRows env _ _) as [| [| cell ?] ?]; by apply (frame_record _ F).
Qed.

Lemma keeps_convertRowM (row : Row) : keeps R (convertRowM row).
Proof.
  intros w. unfold convertRowM.
  destruct (convertRow _ _ _); apply (frame_refl _ F).
Qed.

Lemma keeps_attemptFlushBuffer : keeps R (attemptFlushBuffer env).
Proof.
  unfold attemptFlushBuffer.
  apply keeps_bind; [apply keeps_getTbl |]. intros t.
  destruct (bufferCmdId t =? 0); [apply keeps_ret |].
  destruct (inSync t); keeps_auto.
Qed.

Lemma keeps_flushBufferLoop (n : nat) (err : option error) :
  keeps R (flushBufferLoop env n err).
Proof.
  revert err. induction n as [| n IH]; intros err; [apply keeps_ret |].
  cbn [flushBufferLoop]. apply keeps_bind; [apply keeps_attemptFlushBuffer |].
  intros [e | ]; [| apply keeps_ret].
  apply keeps_bind; [apply keeps_waitOrDone |].
  intros [|]; [apply keeps_ret | apply IH].
Qed.

Lemma keeps_flushBuffer : keeps R (flushBuffer env).
Proof. apply keeps_flushBufferLoop. Qed.

Lemma keeps_execQueries (queries : list string) : keeps R (execQueries env queries).
Proof.
  induction queries as [| query rest IH]; [apply keeps_ret |].
  cbn [execQueries]. keeps_auto.
Qed.

Lemma keeps_tryFlushToMainTable : keeps R (tryFlushToMainTable env).
Proof.
  unfold tryFlushToMainTable.
  apply keeps_bind; [apply keeps_getTbl |]. intros t.
  apply keeps_orReturn; [apply keeps_execQueries |]. keeps_auto.
Qed.

Lemma keeps_promoteLoop (n : nat) : keeps R (promoteLoop env n).
Proof.
  induction n as [| n IH]; [apply keeps_ret |].
  cbn [promoteLoop]. apply keeps_bind; [apply keeps_tryFlushToMainTable |].
  intros [e | ]; [| apply keeps_ret].
  apply keeps_bind; [apply keeps_waitOrDone |].
  intros [|]; [apply keeps_ret | apply IH].
Qed.

Lemma keeps_genSyncWrite (p : bytes) : keeps R (genSyncWrite env p).
Proof.
  unfold genSyncWrite.
  destruct (DecodeCopyToTuples p) as [row | err]; [| apply keeps_ret].
  apply keeps_bind; [apply keeps_convertRowM |]. intros tuple. keeps_auto.
Qed.

Lemma keeps_writeCopyLines (lines : list bytes) : keeps R (writeCopyLines env lines).
Proof.
  induction lines as [| p rest IH]; [apply keeps_ret |].
  cbn [writeCopyLines]. apply keeps_orReturn; [apply keeps_genSyncWrite | done].
Qed.

Lemma keeps_copyToWriter (stmt : string) : keeps R (copyToWriter env stmt).
Proof.
  intros w. unfold copyToWriter.
  pose proof (keeps_writeCopyLines (copyLines env (trace w))
                (record (CopyToWriter stmt) w)) as Hlines.
  destruct (writeCopyLines env _ _) as [[[e | ] | why] w1]; simpl in *;
    (eapply (frame_trans _ F); [| exact Hlines]; by apply (frame_record _ F)).
Qed.

Lemma keeps_genSyncCopy (snapshotLSN : LSN) : keeps R (genSyncCopy env snapshotLSN).
Proof.
  unfold genSyncCopy.
  apply keeps_bind; [apply keeps_getTbl |]. intros t.
  apply keeps_orReturn.
  { destruct (negb _); [apply keeps_truncateTable | apply keeps_ret]. }
  apply keeps_bind; [by apply keeps_modifyTbl |]. intros _.
  apply keeps_bind; [apply keeps_pgStatLiveTuples |]. intros live.
  apply keeps_bind.
  { destruct live as [n [e | ]]; [apply keeps_ret | by apply keeps_modifyTbl]. }
  intros _. apply keeps_orReturn.
  { destruct (negb _); [apply keeps_truncateTable | apply keeps_ret]. }
  apply keeps_bind; [by apply keeps_modifyTbl |]. intros _.
  apply keeps_orReturn; [by apply keeps_call |].
  apply keeps_bind; [by apply keeps_call |]. intros loaderErr.
  apply keeps_bind; [apply keeps_copyToWriter |].
  intros [pgRows [e | ]]; [apply keeps_ret |].
  apply keeps_orReturn; [by apply keeps_call | apply keeps_ret].
Qed.

End Frames.

(** ** C5: the row count of the COPY *)

Lemma checkpointUntouched_frame : frame checkpointUntouched.
Proof.
  split.
  - intros w. repeat split. exists []. split; [by rewrite app_nil_r | constructor].
  - intros a b c (Hs1 & Hp1 & l1 & Ht1 & Hf1) (Hs2 & Hp2 & l2 & Ht2 & Hf2).
    split; [congruence |]. split; [congruence |].
    exists (l1 ++ l2). split; [by rewrite Ht2, Ht1, app_assoc |].
    by apply Forall_app.
  - intros c w Hc. repeat split. exists [c]. split; [reflexivity |].
    by constructor.
  - intros f w _ Hsync. split; [apply Hsync |]. split; [reflexivity |].
    exists []. split; [by rewrite app_nil_r | constructor].
Qed.

(** C5. When the COPY is over (the world is [w1]) and the number of rows
    it reports differs from [syncedRows], genSync returns the mismatch
    error in that very world; [inSync] is what it was when genSync
    started (true after StartSync), the checkpoint store is what it was,
    and no write to the store was tried. *)
Theorem genSync_row_count_mismatch
    (snapshotLSN : LSN) (w w1 : World) (pgRows : Z) (loaderErr : option error) :
  genSyncCopy env snapshotLSN w = (Ret (inr (pgRows, loaderErr)), w1) →
  pgRows ≠ wrap_int (syncedRows (tbl w1)) →
  genSync env snapshotLSN w
    = (Ret (Some (Errorf
         "number of rows inserted to clickhouse(%v) doesn't match the initial number of rows in pg(%v)"
         [ArgNum (syncedRows (tbl w1)); ArgNum pgRows])), w1)
  ∧ inSync (tbl w1) = inSync (tbl w)
  ∧ persStorage w1 = persStorage w
  ∧ ∃ added, trace w1 = trace w ++ added
             ∧ Forall (λ c, isPersWrite c = false) added.
Proof.
  intros Hcopy Hrows. split.
  - unfold genSync, bind at 1. rewrite Hcopy.
    unfold bind, getTbl, ret.
    destruct (Z.eqb_spec pgRows (wrap_int (syncedRows (tbl w1)))); [done |].
    reflexivity.
  - pose proof (keeps_genSyncCopy checkpointUntouched_frame snapshotLSN w) as Hkeep.
    rewrite Hcopy in Hkeep. exact Hkeep.
Qed.

(** ** C2: the checkpoint and the LSN of the caller *)

Lemma storeStep_frame (val : bytes) : frame (storeStep val).
Proof.
  split.
  - intros w. split; [done | by left].
  - intros a b c [Hc1 Hs1] [Hc2 Hs2]. split; [congruence |].
    intros key. destruct (Hs2 key) as [Hsame | Hval]; [| by right].
    rewrite Hsame. apply Hs1.
  - intros c w _. split; [done | by left].
  - intros f w Hcfg _. split; [apply Hcfg | by left].
Qed.

Lemma keeps_persWrite (key : string) (val : bytes) :
  keeps (storeStep val) (persWrite env key val).
Proof.
  intros w. unfold persWrite.
  destruct (callErr env (trace w) (PersWrite key val)); simpl.
  - split; [done | by left].
  - split; [done |]. intros key'.
    destruct (decide (key = key')) as [-> | Hne].
    + right. apply lookup_insert_eq.
    + left. by apply lookup_insert_ne.
Qed.

Lemma keeps_set_inSync (val : bytes) (b : bool) :
  keeps (storeStep val) (modifyTbl (set_inSync b)).
Proof. intros w. split; [done | by left]. Qed.

Lemma keeps_FlushToMainTable (lsn : LSN) :
  keeps (storeStep (FormattedBytes lsn)) (FlushToMainTable env lsn).
Proof.
  pose proof (storeStep_frame (FormattedBytes lsn)) as F.
  unfold FlushToMainTable.
  apply (keeps_orReturn F); [apply (keeps_flushBuffer F) |].
  apply (keeps_bind F); [apply (keeps_getTbl F) |]. intros t.
  destruct (_ || _); [apply (keeps_ret F) |].
  apply (keeps_bind F); [apply (keeps_promoteLoop F) |].
  intros [e | ]; [apply (keeps_ret F) |].
  apply (keeps_orReturn F).
  { destruct (negb _); [apply (keeps_truncateTable F) | apply (keeps_ret F)]. }
  apply (keeps_bind F); [apply (keeps_getTbl F) |]. intros t'.
  apply (keeps_orReturn F); [| apply (keeps_ret F)].
  destruct (negb _); [apply keeps_persWrite | apply (keeps_ret F)].
Qed.

Lemma keeps_genSync (snapshotLSN : LSN) :
  keeps (storeStep (FormattedBytes snapshotLSN)) (genSync env snapshotLSN).
Proof.
  pose proof (storeStep_frame (FormattedBytes snapshotLSN)) as F.
  unfold genSync.
  apply (keeps_bind F); [apply (keeps_genSyncCopy F) |].
  intros [err | [pgRows loaderErr]]; [apply (keeps_ret F) |].
  apply (keeps_bind F); [apply (keeps_getTbl F) |]. intros t.
  destruct (negb _); [apply (keeps_ret F) |].
  destruct loaderErr as [err | ]; [apply (keeps_ret F) |].
  unfold genSyncPost.
  apply (keeps_orReturn F); [apply (keeps_flushBuffer F) |].
  apply (keeps_bind F); [apply (keeps_deltaSize F) |]. intros _.
  apply (keeps_bind F); [apply (keeps_getTbl F) |]. intros t'.
  apply (keeps_orReturn F); [by apply (keeps_call F) |].
  apply (keeps_orReturn F).
  { destruct (negb _); [apply (keeps_truncateTable F) | apply (keeps_ret F)]. }
  apply (keeps_orReturn F); [apply keeps_persWrite |].
  apply (keeps_bind F); [apply keeps_set_inSync |]. intros _.
  apply (keeps_ret F).
Qed.

(** An operation leaves under the key of the table what was there or
    the text of its own LSN. *)
Lemma runOp_checkpoint (op : Op) (w : World) :
  checkpoint (runOp env op w).2 = checkpoint w
  ∨ checkpoint (runOp env op w).2 = Some (FormattedBytes (opLSN op)).
Proof.
  assert (Hstep : storeStep (FormattedBytes (opLSN op)) w (runOp env op w).2).
  { destruct op as [lsn | snapshotLSN]; simpl.
    - apply keeps_FlushToMainTable.
    - apply keeps_genSync. }
  destruct Hstep as [Hcfg Hstore]. unfold checkpoint. rewrite Hcfg.
  apply Hstore.
Qed.

Lemma ascendingFrom_le (l l' : LSN) (lsns : list LSN) :
  l' <= l → ascendingFrom l lsns → ascendingFrom l' lsns.
Proof. destruct lsns as [| x rest]; simpl; [done |]. intros ? [? ?]. split; [lia | done]. Qed.

(** From a store that holds the text of the LSN [l]: along calls whose
    LSNs never go down and start at [l] or above, the store holds the
    text of an LSN after each call, and these LSNs never go down. *)
Lemma checkpointsAlong_from_stored (ops : list Op) :
  ∀ (w : World) (l : LSN),
    checkpoint w = Some (FormattedBytes l) →
    ascendingFrom l (map opLSN ops) →
    ∃ lsns : list LSN,
      checkpointsAlong env ops w = map (λ x, Some (FormattedBytes x)) lsns
      ∧ ascendingFrom l lsns
      ∧ Forall (λ x, x = l ∨ x ∈ map opLSN ops) lsns.
Proof.
  induction ops as [| op rest IH]; intros w l Hstored Hasc.
  { exists []. repeat split; constructor. }
  destruct Hasc as [Hle Hrest]. cbn [checkpointsAlong].
  destruct (runOp_checkpoint op w) as [Hsame | Hnew].
  - rewrite Hsame, Hstored.
    destruct (IH (runOp env op w).2 l) as (lsns & Heq & Hup & Hin).
    { by rewrite Hsame. }
    { by apply (ascendingFrom_le (opLSN op)). }
    exists (l :: lsns). split; [by rewrite Heq |]. split; [split; [lia | done] |].
    constructor; [by left |].
    eapply Forall_impl; [exact Hin |]. intros x [-> | Hx]; [by left | right].
    cbn [map]. by apply list_elem_of_further.
  - rewrite Hnew.
    destruct (IH (runOp env op w).2 (opLSN op)) as (lsns & Heq & Hup & Hin);
      [done | done |].
    exists (opLSN op :: lsns). split; [by rewrite Heq |]. split; [done |].
    constructor; [right; cbn [map]; apply list_elem_of_here |].
    eapply Forall_impl; [exact Hin |]. intros x [-> | Hx]; right; cbn [map].
    + apply list_elem_of_here.
    + by apply list_elem_of_further.
Qed.

(** From any store, an empty one included: along calls whose LSNs never
    go down, the store keeps what it held for some calls, and then holds
    the text of LSNs of the calls, which never go down. *)
Lemma checkpointsAlong_ascending (ops : list Op) :
  ∀ (w : World) (l : LSN),
    ascendingFrom l (map opLSN ops) →
    ∃ (k : nat) (lsns : list LSN),
      checkpointsAlong env ops w
        = replicate k (checkpoint w) ++ map (λ x, Some (FormattedBytes x)) lsns
      ∧ ascendingFrom l lsns
      ∧ Forall (λ x, x ∈ map opLSN ops) lsns.
Proof.
  induction ops as [| op rest IH]; intros w l Hasc.
  { exists 0%nat, []. repeat split; constructor. }
  destruct Hasc as [Hle Hrest]. cbn [checkpointsAlong].
  destruct (runOp_checkpoint op w) as [Hsame | Hnew].
  - destruct (IH (runOp env op w).2 l) as (k & lsns & Heq & Hup & Hin).
    { by apply (ascendingFrom_le (opLSN op)). }
    exists (S k), lsns. split; [by rewrite Heq, Hsame |]. split; [done |].
    eapply Forall_impl; [exact Hin |]. intros x Hx.
    cbn [map]. by apply list_elem_of_further.
  - destruct (checkpointsAlong_from_stored rest (runOp env op w).2 (opLSN op))
      as (lsns & Heq & Hup & Hin); [done | done |].
    exists 0%nat, (opLSN op :: lsns). split; [by rewrite Heq, Hnew |].
    split; [done |].
    constructor; [cbn [map]; apply list_elem_of_here |].
    eapply Forall_impl; [exact Hin |]. intros x [-> | Hx]; cbn [map].
    + apply list_elem_of_here.
    + by apply list_elem_of_further.
Qed.

(** C2, as the code has it.  The engine stores the LSN its caller gives,
    without comparing it with the one in the store: after an operation,
    whatever its LSN, the checkpoint is the one found before or the
    text of the LSN of that operation.  So along a sequence of
    FlushToMainTable and genSync calls whose LSNs never go down, from
    any store, an empty one included, the store keeps what it held for
    some calls and then holds LSNs of the calls, which never go down;
    and when it held the text of an LSN and the calls start at or above
    it, the LSNs found in the store after each call never go down from
    that one. *)
Theorem checkpoint_follows_caller_lsn :
  (∀ (op : Op) (w : World),
     checkpoint (runOp env op w).2 = checkpoint w
     ∨ checkpoint (runOp env op w).2 = Some (FormattedBytes (opLSN op)))
  ∧ (∀ (ops : list Op) (w : World) (l : LSN),
       ascendingFrom l (map opLSN ops) →
       ∃ (k : nat) (lsns : list LSN),
         checkpointsAlong env ops w
           = replicate k (checkpoint w) ++ map (λ x, Some (FormattedBytes x)) lsns
         ∧ ascendingFrom l lsns
         ∧ Forall (λ x, x ∈ map opLSN ops) lsns)
  ∧ (∀ (ops : list Op) (w : World) (l : LSN),
       checkpoint w = Some (FormattedBytes l) →
       ascendingFrom l (map opLSN ops) →
       ∃ lsns : list LSN,
         checkpointsAlong env ops w = map (λ x, Some (FormattedBytes x)) lsns
         ∧ ascendingFrom l lsns
         ∧ Forall (λ x, x = l ∨ x ∈ map opLSN ops) lsns).
Proof.
  split; [exact runOp_checkpoint |].
  split.
  - intros ops w l Hasc. by apply checkpointsAlong_ascending.
  - intros ops w l Hstored Hasc. by apply checkpointsAlong_from_stored.
Qed.

End Properties.

(** * The properties on the examples *)

(** ** C1: the checkpoint after a promotion that never went through *)

(** C1, on the code.  One command is staged, a buffer table is
    configured, the sink refuses the promotion query at each of the 100
    attempts and the context is never cancelled: FlushToMainTable goes
    on after its retry loop, truncates the buffer table, writes the
    checkpoint 0/C8 and returns nil, with [bufferFlushCnt] still 1. *)
Theorem FlushToMainTable_checkpoint_after_failed_promotion :
  (FlushToMainTable promotionDown 200 stagedWorld).1 = Ret None
  ∧ checkpoint stagedWorld = None
  ∧ checkpoint (FlushToMainTable promotionDown 200 stagedWorld).2
      = Some (formattedLSN 200)
  ∧ List.filter isExec (trace (FlushToMainTable promotionDown 200 stagedWorld).2)
      = repeat (Exec promotionQuery) 100 ++ [Exec "truncate table db.events_buf"]
  ∧ (∀ tr, callErr promotionDown tr (Exec promotionQuery)
           = Some (ExternalError "connection refused"))
  ∧ bufferFlushCnt (tbl (FlushToMainTable promotionDown 200 stagedWorld).2) = 1.
Proof.
  repeat split; vm_compute; reflexivity.
Qed.

(** ** C2: a checkpoint that moves backward *)

(** C2, as stated, fails.  A sync ends with the snapshot LSN 0/C8 (200),
    then FlushToMainTable is called with the LSN 0/64 (100): both return
    nil, and the store holds 0/C8 and then 0/64. *)
Lemma checkpoint_moves_backward :
  (genSync quietOracle 200 syncingWorld).1 = Ret None
  ∧ (FlushToMainTable quietOracle 100 afterSync).1 = Ret None
  ∧ checkpointsAlong quietOracle [OpGenSync 200; OpFlushToMainTable 100] syncingWorld
      = [Some (formattedLSN 200); Some (formattedLSN 100)]
  ∧ formattedLSN 200 = bytes_of "0/C8"
  ∧ formattedLSN 100 = bytes_of "0/64"
  ∧ ¬ (200 <= 100).
Proof.
  repeat split; try (vm_compute; reflexivity). lia.
Qed.

(** ** C6: two rows in one array *)

(** C6, as stated, fails.  The rows (7, seven) and (8, eight) are
    [buf[0:7]] and [buf[7:14]] of one array of 14 bytes and arrive
    during the sync with the LSN 300.  The appends to the first row are
    made in place and overwrite the second one, which goes to the loader
    as a tab, 0, a tab, 300 and t, with its own suffix after that. *)
Lemma processChTuples_in_sync_shared_array :
  inSync (tbl syncStarted) = true
  ∧ contents (heap syncStarted) [packedRow; packedRow2] = [sevenBytes; eightBytes]
  ∧ (processChTuples quietOracle 300 (Some [packedRow; packedRow2]) syncStarted).1
      = Ret (false, None)
  ∧ trace (processChTuples quietOracle 300 (Some [packedRow; packedRow2]) syncStarted).2
      = [ BufferWrite (sevenBytes ++ [columnDelimiter] ++ bytes_of "0"
                         ++ [columnDelimiter] ++ bytes_of "300");
          BufferWrite [newline];
          BufferWrite ([columnDelimiter] ++ bytes_of "0" ++ [columnDelimiter]
                         ++ bytes_of "300t" ++ [columnDelimiter] ++ bytes_of "1"
                         ++ [columnDelimiter] ++ bytes_of "300");
          BufferWrite [newline] ]
  ∧ trace (processChTuples quietOracle 300 (Some [packedRow; packedRow2]) syncStarted).2
      ≠ auxLines 300 0 [sevenBytes; eightBytes]
  ∧ apart [packedRow; packedRow2] = false.
Proof.
  repeat split; try (vm_compute; reflexivity).
  vm_compute. discriminate.
Qed.

(** ** C7: a stale batch when the flush and the merge are due *)


(** ** C4: a row whose first column is not mapped *)

(** C4, on the code.  The table has the source columns [id] and [v] and
    maps [v] only: the tuple made of the row (1, x) is a tab followed by
    x.  The tab is written because [colId > 0], although nothing was
    written before it. *)
Theorem convertRow_leading_tab :
  convertRow sparseTable 7 sourceRow = Some (columnDelimiter :: bytes_of "x")
  ∧ columnMapping sparseTable !! "id" = None.
Proof.
  split; vm_compute; reflexivity.
Qed.

(** ** The theorems at work *)

(** After the sync above (snapshot LSN 200) an event with the LSN 150 is
    dropped. *)
Lemma processChTuples_drops_stale_batch_witness :
  inSync (tbl afterSync) = false
  ∧ 150 < syncSnapshotLSN (tbl afterSync)
  ∧ processChTuples quietOracle 150 (Some [liveRow]) afterSync
      = (Ret (false, None), afterSync).
Proof.
  split; [vm_compute; reflexivity |].
  split; [vm_compute; reflexivity |].
  apply (processChTuples_drops_stale_batch quietOracle 150 liveRow [] afterSync);
    vm_compute; reflexivity.
Defined.

(** The COPY reports two rows and one line was synced. *)
Lemma genSync_row_count_mismatch_witness :
  genSyncCopy shortCopyOracle 200 syncStarted
    = (Ret (inr (2, None)), (genSyncCopy shortCopyOracle 200 syncStarted).2)
  ∧ 2 ≠ wrap_int (syncedRows (tbl (genSyncCopy shortCopyOracle 200 syncStarted).2))
  ∧ inSync (tbl (genSyncCopy shortCopyOracle 200 syncStarted).2) = true
  ∧ persStorage (genSyncCopy shortCopyOracle 200 syncStarted).2 = ∅.
Proof.
  assert (Hcopy : genSyncCopy shortCopyOracle 200 syncStarted
            = (Ret (inr (2, None)), (genSyncCopy shortCopyOracle 200 syncStarted).2))
    by (vm_compute; reflexivity).
  assert (Hrows : 2 ≠ wrap_int (syncedRows (tbl (genSyncCopy shortCopyOracle 200 syncStarted).2)))
    by (vm_compute; discriminate).
  split; [exact Hcopy |]. split; [exact Hrows |].
  destruct (genSync_row_count_mismatch shortCopyOracle 200 syncStarted _ 2 None
              Hcopy Hrows) as (_ & Hsync & Hstore & _).
  split; [exact Hsync | exact Hstore].
Defined.

(** Two rows of one command received during the sync, each in an array
    of its own; the loader takes all the writes. *)
Lemma processChTuples_in_sync_witness :
  inSync (tbl syncStarted) = true
  ∧ apart [liveRow; liveRow2] = true
  ∧ ∃ w1 : World,
      stageTuples quietOracle 300 (Some [liveRow; liveRow2]) syncStarted = (Ret None, w1)
      ∧ trace w1 = auxLines 300 0 [sevenBytes; eightBytes]
      ∧ auxTblRowID (tbl w1) = 2
      ∧ bufferRowId (tbl w1) = 2
      ∧ bufferCmdId (tbl w1) = 1.
Proof.
  split; [reflexivity |]. split; [reflexivity |].
  destruct (processChTuples_in_sync quietOracle 300 liveRow [liveRow2] syncStarted
              eq_refl eq_refl)
    as (r & w1 & k & Hstage & _ & _ & _ & _ & Hall & Hcase & _).
  assert (Hr : r = None) by (apply Hall; simpl; repeat split).
  subst r. destruct Hcase as (_ & Htrace & Haux & Hrow & Hcmd & _).
  exists w1. split; [exact Hstage |].
  split; [rewrite Htrace; vm_compute; reflexivity |].
  split; [exact Haux |].
  split; [exact Hrow | exact Hcmd].
Defined.



(** Nothing is staged and nothing was flushed. *)
Lemma empty_buffer_flush_is_noop_witness :
  bufferCmdId (tbl sampleWorld) = 0
  ∧ bufferFlushCnt (tbl sampleWorld) = 0
  ∧ attemptFlushBuffer promotionDown sampleWorld = (Ret None, sampleWorld)
  ∧ flushBuffer promotionDown sampleWorld = (Ret None, sampleWorld)
  ∧ FlushToMainTable promotionDown 200 sampleWorld = (Ret None, sampleWorld).
Proof.
  destruct (empty_buffer_flush_is_noop promotionDown 200 sampleWorld eq_refl)
    as (Hattempt & Hflush & Hpromote).
  split; [reflexivity |]. split; [reflexivity |].
  split; [exact Hattempt |]. split; [exact Hflush |].
  exact (Hpromote eq_refl).
Defined.

(** From the empty store of a first sync: the sync with the snapshot
    LSN 200, then a promotion with the LSN 250.  And after that sync
    (checkpoint 200), two promotions with the LSNs 250 and 300. *)
Lemma checkpoint_follows_caller_lsn_witness :
  checkpoint syncingWorld = None
  ∧ ascendingFrom 200 (map opLSN [OpGenSync 200; OpFlushToMainTable 250])
  ∧ (∃ (k : nat) (lsns : list LSN),
       checkpointsAlong quietOracle [OpGenSync 200; OpFlushToMainTable 250] syncingWorld
         = replicate k None ++ map (λ x, Some (FormattedBytes x)) lsns
       ∧ ascendingFrom 200 lsns)
  ∧ checkpoint afterSync = Some (FormattedBytes 200)
  ∧ ascendingFrom 200 (map opLSN [OpFlushToMainTable 250; OpFlushToMainTable 300])
  ∧ ∃ lsns : list LSN,
      checkpointsAlong quietOracle [OpFlushToMainTable 250; OpFlushToMainTable 300] afterSync
        = map (λ x, Some (FormattedBytes x)) lsns
      ∧ ascendingFrom 200 lsns.
Proof.
  destruct (checkpoint_follows_caller_lsn quietOracle) as (_ & Hany & Hfrom).
  assert (Hempty : checkpoint syncingWorld = None) by (vm_compute; reflexivity).
  assert (Hasc0 : ascendingFrom 200 (map opLSN [OpGenSync 200; OpFlushToMainTable 250]))
    by (simpl; lia).
  assert (Hstored : checkpoint afterSync = Some (FormattedBytes 200))
    by (vm_compute; reflexivity).
  assert (Hasc : ascendingFrom 200
            (map opLSN [OpFlushToMainTable 250; OpFlushToMainTable 300]))
    by (simpl; lia).
  split; [exact Hempty |]. split; [exact Hasc0 |]. split.
  { destruct (Hany [OpGenSync 200; OpFlushToMainTable 250] syncingWorld 200 Hasc0)
      as (k & lsns & Heq & Hup & _).
    exists k, lsns. rewrite Hempty in Heq. split; [exact Heq | exact Hup]. }
  split; [exact Hstored |]. split; [exact Hasc |].
  destruct (Hfrom [OpFlushToMainTable 250; OpFlushToMainTable 300] afterSync 200
              Hstored Hasc) as (lsns & Heq & Hup & _).
  exists lsns. split; [exact Heq | exact Hup].
Defined.

(** * More properties of the file *)

(** ** appendField *)

Lemma fold_left_app_acc (fields : list bytes) (acc : bytes) :
  fold_left (λ res v, res ++ v) fields acc = acc ++ concat fields.
Proof.
  revert acc. induction fields as [| v rest IH]; intros acc; simpl.
  - by rewrite app_nil_r.
  - rewrite IH. by rewrite <- app_assoc.
Qed.

Lemma fold_left_delimited (fields : list bytes) (acc : bytes) :
  fold_left (λ res v, res ++ (columnDelimiterStr ++ v)) fields acc
  = acc ++ concat (map (cons columnDelimiter) fields).
Proof.
  revert acc. induction fields as [| v rest IH]; intros acc; simpl.
  - by rewrite app_nil_r.
  - rewrite IH. by rewrite <- app_assoc.
Qed.

Lemma appendField_nonempty (str : bytes) (fields : list bytes) :
  str ≠ [] →
  appendField str fields = str ++ concat (map (cons columnDelimiter) fields).
Proof.
  intros Hne. unfold appendField.
  destruct str as [| c str']; [done |]. simpl. apply fold_left_delimited.
Qed.

(** X17. appendField puts a tab before every field when the string it
    extends is not empty, so that extending in two steps is extending
    once by all the fields; on the empty string it writes the fields one
    after the other with no tab between them. *)
Theorem appendField_delimiters (str : bytes) (f1 f2 : list bytes) :
  appendField [] f1 = concat f1
  ∧ (str ≠ [] →
     appendField str f1 = str ++ concat (map (cons columnDelimiter) f1)
     ∧ appendField (appendField str f1) f2 = appendField str (f1 ++ f2)).
Proof.
  split; [apply fold_left_app_acc |].
  intros Hne. split; [by apply appendField_nonempty |].
  rewrite (appendField_nonempty str f1) by done.
  rewrite !appendField_nonempty; [| done | by destruct str].
  rewrite map_app, concat_app, app_assoc. reflexivity.
Qed.

(** ** compareRows *)

Lemma bytesEqual_eq (x y : bytes) : bytesEqual x y = true ↔ x = y.
Proof.
  revert y. induction x as [| a x IH]; intros [| b y]; simpl; try done.
  rewrite andb_true_iff, IH. split.
  - intros [Hab ->]. f_equal. by apply Byte.byte_dec_bl.
  - intros [= -> ->]. split; [by apply Byte.byte_dec_lb | done].
Qed.

Section CompareRowsProperties.

Variable TupleNull : byte.

Lemma comparedAt_here t a b colId col rest ta tb :
  is_Some (columnMapping t !! Name col) →
  a !! colId = Some ta → b !! colId = Some tb →
  comparedAt t a b colId (col :: rest) col ta tb.
Proof.
  intros Hm Ha Hb. exists 0%nat. rewrite Nat.add_0_r. done.
Qed.

Lemma comparedAt_further t a b colId col0 rest col ta tb :
  comparedAt t a b (S colId) rest col ta tb →
  comparedAt t a b colId (col0 :: rest) col ta tb.
Proof.
  intros (i & Hc & Hm & Ha & Hb). exists (S i).
  replace (colId + S i)%nat with (S colId + i)%nat by lia. done.
Qed.

Lemma comparedAt_inv t a b colId col0 rest col ta tb :
  comparedAt t a b colId (col0 :: rest) col ta tb →
  (col = col0 ∧ is_Some (columnMapping t !! Name col0)
   ∧ a !! colId = Some ta ∧ b !! colId = Some tb)
  ∨ comparedAt t a b (S colId) rest col ta tb.
Proof.
  intros ([| i] & Hc & Hm & Ha & Hb).
  - left. rewrite Nat.add_0_r in Ha, Hb. simpl in Hc.
    injection Hc as ->. done.
  - right. exists i.
    replace (S colId + i)%nat with (colId + S i)%nat by lia. done.
Qed.

(** The two flags at the end of the loop, from the flags it starts
    with. *)
Lemma compareColumns_flags (t : genericTable) (a b : Row) (cols : list Column) :
  ∀ (colId : nat) (e0 k0 equal key : bool),
    compareColumns TupleNull t a b colId cols e0 k0 = Some (equal, key) →
    (equal = true ↔
       e0 = true
       ∧ ∀ col ta tb, comparedAt t a b colId cols col ta tb →
                      sameTuple TupleNull ta tb = true)
    ∧ (key = true ↔
         k0 = true
         ∨ ∃ col ta tb, comparedAt t a b colId cols col ta tb
                        ∧ IsKey col = true
                        ∧ sameTuple TupleNull ta tb = false).
Proof.
  induction cols as [| col rest IH]; intros colId e0 k0 equal key Hrun.
  { simpl in Hrun. injection Hrun as <- <-. split.
    - split; [intros ->; split; [done |] | by intros [? _]].
      intros col ta tb (i & Hc & _). by rewrite lookup_nil in Hc.
    - split; [by left |]. intros [? | (col & ta & tb & (i & Hc & _) & _)]; [done |].
      by rewrite lookup_nil in Hc. }
  cbn [compareColumns] in Hrun.
  destruct (columnMapping t !! Name col) as [chCol |] eqn:Hmap.
  2:{ destruct (IH _ _ _ _ _ Hrun) as [Heq Hkey]. split.
      - rewrite Heq. split; intros [He Hall]; (split; [done |]); intros c ta tb Hc.
        + apply comparedAt_inv in Hc as [(-> & [? Hm] & _) | Hc]; [congruence |].
          by apply (Hall c).
        + apply (Hall c). by apply comparedAt_further.
      - rewrite Hkey. split; (intros [Hk | (c & ta & tb & Hc & Hrest)]; [by left | right]);
          exists c, ta, tb; (split; [| done]).
        + by apply comparedAt_further.
        + apply comparedAt_inv in Hc as [(-> & [? Hm] & _) | Hc]; [congruence | done]. }
  destruct (a !! colId) as [ta0 |] eqn:Ha; [| done].
  destruct (b !! colId) as [tb0 |] eqn:Hb; [| done].
  assert (Hhere : comparedAt t a b colId (col :: rest) col ta0 tb0)
    by (apply comparedAt_here; [by rewrite Hmap | done | done]).
  assert (Hsame : ∀ c ta tb,
             comparedAt t a b colId (col :: rest) c ta tb →
             (c = col ∧ ta = ta0 ∧ tb = tb0) ∨ comparedAt t a b (S colId) rest c ta tb).
  { intros c ta tb Hc.
    apply comparedAt_inv in Hc as [(-> & _ & Ha' & Hb') | Hc]; [left | by right].
    rewrite Ha in Ha'. rewrite Hb in Hb'. by injection Ha' as ->; injection Hb' as ->. }
  destruct (sameTuple TupleNull ta0 tb0) eqn:Hst.
  - assert (Hgo : compareColumns TupleNull t a b (S colId) rest e0 k0 = Some (equal, key)).
    { unfold sameTuple in Hst.
      destruct (negb (Byte.eqb (Kind ta0) TupleNull)).
      - rewrite Hst in Hrun. exact Hrun.
      - destruct (Byte.eqb (Kind tb0) TupleNull); [done | exact Hrun]. }
    destruct (IH _ _ _ _ _ Hgo) as [Heq Hkey]. split.
    + rewrite Heq. split; intros [He Hall]; (split; [done |]); intros c ta tb Hc.
      * destruct (Hsame c ta tb Hc) as [(-> & -> & ->) | Hc']; [done | by apply (Hall c)].
      * apply (Hall c). by apply comparedAt_further.
    + rewrite Hkey. split; (intros [Hk | (c & ta & tb & Hc & Hk & Hne)]; [by left | right]).
      * exists c, ta, tb. split; [by apply comparedAt_further | done].
      * destruct (Hsame c ta tb Hc) as [(-> & -> & ->) | Hc']; [congruence |].
        by exists c, ta, tb.
  - assert (Hgo : compareColumns TupleNull t a b (S colId) rest false
                    (if IsKey col then true else k0) = Some (equal, key)).
    { unfold sameTuple in Hst.
      destruct (negb (Byte.eqb (Kind ta0) TupleNull)).
      - rewrite Hst in Hrun. exact Hrun.
      - destruct (Byte.eqb (Kind tb0) TupleNull); [exact Hrun | done]. }
    destruct (IH _ _ _ _ _ Hgo) as [Heq Hkey]. split.
    + rewrite Heq. split; [by intros [? _] |]. intros [_ Hall].
      specialize (Hall col ta0 tb0 Hhere). congruence.
    + rewrite Hkey. split.
      * intros [Hk | (c & ta & tb & Hc & Hk & Hne)].
        -- destruct (IsKey col) eqn:Hiskey; [right | by left].
           by exists col, ta0, tb0.
        -- right. exists c, ta, tb. split; [by apply comparedAt_further | done].
      * intros [Hk | (c & ta & tb & Hc & Hk & Hne)].
        -- left. rewrite Hk. by destruct (IsKey col).
        -- destruct (Hsame c ta tb Hc) as [(-> & -> & ->) | Hc'].
           ++ left. by rewrite Hk.
           ++ right. by exists c, ta, tb.
Qed.

End CompareRowsProperties.

(** X14. compareRows answers "equal" exactly when every mapped column that
    both rows hold is the same in the sense of [sameTuple]: a value of
    [a] is the value of [b], and for a NULL of [a] the row [b] has
    something else than NULL.  It answers "key column changed" exactly
    when one of the mapped key columns is not the same in that sense. *)
Theorem compareRows_flags (TupleNull : byte) (t : genericTable) (a b : Row)
    (equal key : bool) :
  compareRows TupleNull t a b = Some (equal, key) →
  (equal = true ↔
     ∀ col ta tb, comparedAt t a b 0 (tupleColumns t) col ta tb →
                  sameTuple TupleNull ta tb = true)
  ∧ (key = true ↔
       ∃ col ta tb, comparedAt t a b 0 (tupleColumns t) col ta tb
                    ∧ IsKey col = true
                    ∧ sameTuple TupleNull ta tb = false).
Proof.
  intros Hrun. unfold compareRows in Hrun.
  destruct (compareColumns_flags TupleNull t a b _ _ _ _ _ _ Hrun) as [Heq Hkey].
  split.
  - rewrite Heq. split; [by intros [_ ?] | done].
  - rewrite Hkey. split; [by intros [? | ?] | by right].
Qed.

(** X15. compareRows never reports a changed key column for rows it calls
    equal. *)
Theorem compareRows_key_changed_not_equal (TupleNull : byte) (t : genericTable)
    (a b : Row) (equal key : bool) :
  compareRows TupleNull t a b = Some (equal, key) →
  key = true → equal = false.
Proof.
  intros Hrun Hk. unfold compareRows in Hrun.
  destruct (compareColumns_flags TupleNull t a b _ _ _ _ _ _ Hrun) as [Heq Hkey].
  apply Hkey in Hk as [Hk | (col & ta & tb & Hc & _ & Hne)]; [done |].
  destruct equal; [| done].
  destruct Heq as [Heq _]. destruct (Heq eq_refl) as [_ Hall].
  specialize (Hall col ta tb Hc). congruence.
Qed.

(** X16. A row compared with itself is "equal" exactly when none of its
    mapped columns is NULL: two NULLs count as a difference. *)
Theorem compareRows_same_row (TupleNull : byte) (t : genericTable) (a : Row)
    (equal key : bool) :
  compareRows TupleNull t a a = Some (equal, key) →
  (equal = true ↔
     ∀ col ta, comparedAt t a a 0 (tupleColumns t) col ta ta →
               Kind ta ≠ TupleNull).
Proof.
  intros Hrun. unfold compareRows in Hrun.
  destruct (compareColumns_flags TupleNull t a a _ _ _ _ _ _ Hrun) as [Heq _].
  assert (Hself : ∀ ta, sameTuple TupleNull ta ta = true ↔ Kind ta ≠ TupleNull).
  { intros ta. unfold sameTuple.
    destruct (Byte.eqb (Kind ta) TupleNull) eqn:Hk; simpl.
    - apply Byte.byte_dec_bl in Hk. split; [done | by intros []].
    - split; [| intros _; by apply bytesEqual_eq].
      intros _ Heqk. apply Byte.byte_dec_lb in Heqk. congruence. }
  rewrite Heq. split.
  - intros [_ Hall] col ta Hc. apply Hself. by apply (Hall col ta ta).
  - intros Hall. split; [done |]. intros col ta tb Hc.
    assert (ta = tb) as <-.
    { destruct Hc as (i & _ & _ & Ha & Hb). congruence. }
    apply Hself. by apply (Hall col).
Qed.

(** ** convertRow *)

Section ConvertRowProperties.

Context `{Collab : Collaborators}.

(** From the second source column on, every mapped column is written
    with a tab before it. *)
Lemma convertColumns_from (t : genericTable) (row : Row) (cols : list Column) :
  ∀ (colId : nat) (res : bytes),
    (0 < colId)%nat →
    (colId + length cols ≤ length row)%nat →
    convertColumns t row colId cols res
    = Some (res ++ concat (map (cons columnDelimiter) (sinkValues t row colId cols))).
Proof.
  induction cols as [| col rest IH]; intros colId res Hpos Hlen.
  { simpl. by rewrite app_nil_r. }
  cbn [convertColumns sinkValues length] in *.
  destruct (columnMapping t !! Name col) as [chCol |].
  - destruct (row !! colId) as [tup |] eqn:Htup;
      [| apply lookup_ge_None in Htup; lia].
    destruct (Nat.ltb_spec 0 colId) as [_ | ?]; [| lia].
    rewrite IH by lia. cbn [map concat]. f_equal.
    rewrite <- !app_assoc. reflexivity.
  - apply IH; lia.
Qed.

(** X12. convertRow on a table whose first source column is mapped, for a row
    that has a value for every source column: the converted values of
    the mapped columns, in the order of the source columns, with one tab
    between two of them; when a generation column is configured the
    decimal [generationID] comes last, after a tab unless nothing was
    written before it. *)
Theorem convertRow_joins_mapped_columns
    (t : genericTable) (genID : Z) (row : Row) (col0 : Column) (rest : list Column) :
  tupleColumns t = col0 :: rest →
  is_Some (columnMapping t !! Name col0) →
  (length (tupleColumns t) ≤ length row)%nat →
  convertRow t genID row
  = Some (let body := joinBytes columnDelimiter (sinkValues t row 0 (tupleColumns t)) in
          if String.eqb (GenerationColumn (cfg t)) "" then body
          else match body with
               | [] => bytes_of (FormatUint genID)
               | _ => body ++ columnDelimiter :: bytes_of (FormatUint genID)
               end).
Proof.
  intros Hcols [chCol Hmap] Hlen. unfold convertRow.
  rewrite Hcols in *. cbn [convertColumns sinkValues length] in *.
  rewrite Hmap.
  destruct (row !! 0%nat) as [tup |] eqn:Htup;
    [| apply lookup_ge_None in Htup; lia].
  cbn [Nat.ltb Nat.leb app].
  rewrite convertColumns_from by lia.
  cbn [joinBytes]. cbv zeta.
  destruct (String.eqb (GenerationColumn (cfg t)) ""); [reflexivity |].
  destruct (ConvertColumn _ _ _ ++ concat _) as [| c body]; [reflexivity |].
  cbn [length Nat.ltb Nat.leb]. by rewrite <- app_assoc.
Qed.

Lemma convertColumns_None (t : genericTable) (row : Row) (cols : list Column) :
  ∀ (colId : nat) (res : bytes),
    convertColumns t row colId cols res = None
    ↔ ∃ i col, cols !! i = Some col
               ∧ is_Some (columnMapping t !! Name col)
               ∧ (length row ≤ colId + i)%nat.
Proof.
  induction cols as [| col rest IH]; intros colId res.
  { simpl. split; [done |]. intros (i & c & Hc & _). by rewrite lookup_nil in Hc. }
  cbn [convertColumns].
  destruct (columnMapping t !! Name col) as [chCol |] eqn:Hmap.
  - destruct (row !! colId) as [tup |] eqn:Htup.
    + rewrite IH. apply lookup_lt_Some in Htup. split.
      * intros (i & c & Hc & Hm & Hlen). exists (S i), c.
        split; [done |]. split; [done | lia].
      * intros ([| i] & c & Hc & Hm & Hlen); [lia |].
        exists i, c. split; [done |]. split; [done | lia].
    + split; [intros _ | done]. exists 0%nat, col.
      split; [done |]. split; [by rewrite Hmap |].
      apply lookup_ge_None in Htup. lia.
  - rewrite IH. split.
    + intros (i & c & Hc & Hm & Hlen). exists (S i), c.
      split; [done |]. split; [done | lia].
    + intros ([| i] & c & Hc & [? Hm] & Hlen).
      * simpl in Hc. injection Hc as <-. congruence.
      * exists i, c. split; [done |]. split; [by eexists | lia].
Qed.

(** X13. convertRow panics (index out of range) exactly when the row has no
    value at the index of some mapped source column. *)
Theorem convertRow_panics_iff_row_too_short (t : genericTable) (genID : Z) (row : Row) :
  convertRow t genID row = None
  ↔ ∃ colId col, tupleColumns t !! colId = Some col
                 ∧ is_Some (columnMapping t !! Name col)
                 ∧ (length row ≤ colId)%nat.
Proof.
  unfold convertRow.
  destruct (convertColumns t row 0 (tupleColumns t) []) as [res |] eqn:Hrun.
  - split.
    + destruct (String.eqb _ _); done.
    + intros Hshort. apply (convertColumns_None t row _ 0%nat []) in Hshort. congruence.
  - split; [intros _ | done]. by apply (convertColumns_None t row _ 0%nat []).
Qed.

End ConvertRowProperties.

(** ** The promotion *)

Section EngineProperties.

Context `{Collab : Collaborators} (env : Oracle).

Lemma execQueries_accepted (queries : list string) (w : World) :
  accepted env (trace w) (map Exec queries) →
  execQueries env queries w
  = (Ret None, withTrace (trace w ++ map Exec queries) w).
Proof.
  revert w. induction queries as [| query rest IH]; intros w Hacc.
  { simpl. by rewrite app_nil_r, withTrace_trace. }
  destruct Hacc as [Hq Hrest].
  cbn [execQueries]. unfold orReturn, bind at 1, call. rewrite Hq.
  rewrite IH by exact Hrest.
  unfold record, withTrace. cbn [tbl trace persStorage generationID map].
  by rewrite <- app_assoc.
Qed.

Lemma execQueries_refused (pre : list string) (query : string) (post : list string)
    (e : error) (w : World) :
  accepted env (trace w) (map Exec pre) →
  callErr env (trace w ++ map Exec pre) (Exec query) = Some e →
  execQueries env (pre ++ query :: post) w
  = (Ret (Some e), withTrace (trace w ++ map Exec pre ++ [Exec query]) w).
Proof.
  revert w. induction pre as [| q pre IH]; intros w Hacc Herr.
  - simpl in *. rewrite app_nil_r in Herr.
    unfold orReturn, bind, call. rewrite Herr. reflexivity.
  - destruct Hacc as [Hq Hrest]. cbn [app execQueries].
    unfold orReturn, bind at 1, call. rewrite Hq.
    rewrite (IH (record (Exec q) w)); [| exact Hrest |].
    + unfold record, withTrace. cbn [tbl trace persStorage generationID map app].
      by rewrite <- app_assoc.
    + cbn [record trace map app] in *. by rewrite <- app_assoc.
Qed.

(** X1. tryFlushToMainTable runs the promotion queries in their order.  When
    the sink takes them all it returns nil with [bufferFlushCnt] and
    [bufferRowId] at 0; at the first one the sink refuses it returns the
    error of that query as it is, runs none of the queries after it and
    leaves the two counters as they were. *)
Theorem tryFlushToMainTable_outcome (w : World) :
  (accepted env (trace w) (map Exec (flushQueries (tbl w))) →
   tryFlushToMainTable env w
   = (Ret None,
      withTrace (trace w ++ map Exec (flushQueries (tbl w)))
        (withTbl (set_bufferRowId 0 (set_bufferFlushCnt 0 (tbl w))) w)))
  ∧ (∀ pre query post e,
       flushQueries (tbl w) = pre ++ query :: post →
       accepted env (trace w) (map Exec pre) →
       callErr env (trace w ++ map Exec pre) (Exec query) = Some e →
       tryFlushToMainTable env w
       = (Ret (Some e), withTrace (trace w ++ map Exec pre ++ [Exec query]) w)).
Proof.
  split.
  - intros Hacc. unfold tryFlushToMainTable, orReturn, bind at 1, getTbl.
    unfold bind at 1. rewrite execQueries_accepted by done.
    reflexivity.
  - intros pre query post e Hqs Hacc Herr.
    unfold tryFlushToMainTable, orReturn, bind at 1, getTbl.
    unfold bind at 1. rewrite Hqs.
    rewrite (execQueries_refused pre query post e) by done.
    reflexivity.
Qed.

Lemma execQueries_returns (queries : list string) (w : World) :
  ∃ r, (execQueries env queries w).1 = Ret r.
Proof.
  revert w. induction queries as [| query rest IH]; intros w; [by exists None |].
  cbn [execQueries]. unfold orReturn, bind at 1, call.
  destruct (callErr env (trace w) (Exec query)) as [e | ]; [by exists (Some e) |].
  apply IH.
Qed.

Lemma tryFlushToMainTable_returns (w : World) :
  ∃ r, (tryFlushToMainTable env w).1 = Ret r.
Proof.
  unfold tryFlushToMainTable, orReturn, bind at 1, getTbl. unfold bind at 1.
  destruct (execQueries_returns (flushQueries (tbl w)) w) as [r Hr].
  destruct (execQueries env (flushQueries (tbl w)) w) as [[[e | ] | why] w1];
    simpl in Hr; try discriminate.
  - by exists (Some e).
  - by exists None.
Qed.

(** The retry loop of FlushToMainTable returns from inside the loop with
    one error only, "abort retrying"; it never stops the process. *)
Lemma promoteLoop_result (n : nat) (w : World) :
  ∃ r, (promoteLoop env n w).1 = Ret r
       ∧ (r = None ∨ r = Some (Errorf "abort retrying" [])).
Proof.
  revert w. induction n as [| n IH]; intros w; [exists None; by split; [| left] |].
  cbn [promoteLoop]. unfold bind at 1.
  destruct (tryFlushToMainTable_returns w) as [r Hr].
  destruct (tryFlushToMainTable env w) as [[[e | ] | why] w1];
    simpl in Hr; try discriminate.
  - unfold bind at 1, waitOrDone. destruct (ctxDone env (trace w1)); [| apply IH].
    eexists. split; [reflexivity | by right].
  - exists None. by split; [| left].
Qed.

(** X2. The errors FlushToMainTable can return are the error of the buffer
    flush, "abort retrying", the error of the truncation of the buffer
    table and the error of the checkpoint write, each wrapped: an error
    of a promotion query is never among them, and the function never
    stops the process. *)
Theorem FlushToMainTable_errors (lsn : LSN) (w : World) :
  ∃ r, (FlushToMainTable env lsn w).1 = Ret r
       ∧ ∀ e, r = Some e →
           (∃ inner, e = Errorf "could not flush buffers: %v" [ArgError inner])
           ∨ e = Errorf "abort retrying" []
           ∨ (∃ inner, e = Errorf "could not truncate buffer table: %v" [ArgError inner])
           ∨ (∃ pg inner, e = Errorf "could not save lsn for table %q: %v"
                                [ArgPgTable pg; ArgError inner]).
Proof.
  unfold FlushToMainTable, orReturn. unfold bind at 1.
  destruct (flushBuffer_returns env w) as (r1 & w1 & Hflush & _).
  rewrite Hflush. destruct r1 as [e1 | ].
  { eexists. split; [reflexivity |]. intros e [= <-]. left. by eexists. }
  unfold bind at 1, getTbl.
  destruct (IsEmpty (ChBufferTable (cfg (tbl w1))) || (bufferFlushCnt (tbl w1) =? 0)).
  { exists None. by split. }
  unfold bind at 1.
  destruct (promoteLoop_result maxAttempts w1) as (r2 & Hr2 & Hcase).
  destruct (promoteLoop env maxAttempts w1) as [res2 w2]. simpl in Hr2. subst res2.
  destruct Hcase as [-> | ->].
  2:{ eexists. split; [reflexivity |]. intros e [= <-]. right. by left. }
  unfold bind at 1.
  destruct (negb (IsEmpty (ChBufferTable (cfg (tbl w1))))).
  - unfold truncateTable, orReturn, bind at 1, call.
    destruct (callErr env (trace w2) _) as [e3 | ].
    { eexists. split; [reflexivity |]. intros e [= <-]. right. right. left. by eexists. }
    unfold bind at 1, getTbl, ret. cbn [record tbl trace].
    destruct (negb (inSync (tbl w2))).
    + unfold bind, persWrite. cbn [trace].
      destruct (callErr env _ (PersWrite _ _)) as [e4 | ].
      * eexists. split; [reflexivity |]. intros e [= <-]. do 3 right. by eexists _, _.
      * exists None. by split.
    + exists None. by split.
  - unfold bind at 1, getTbl, ret.
    destruct (negb (inSync (tbl w2))).
    + unfold bind, persWrite.
      destruct (callErr env _ (PersWrite _ _)) as [e4 | ].
      * eexists. split; [reflexivity |]. intros e [= <-]. do 3 right. by eexists _, _.
      * exists None. by split.
    + exists None. by split.
Qed.

(** X3. The promotion when nothing fails.  The buffer is flushed, a buffer
    table is configured, some flush has been made since the last
    promotion, the engine is not in a sync, and the sink and the store
    take the promotion queries, the truncation of the buffer table and
    the checkpoint: FlushToMainTable makes exactly these calls, in this
    order, returns nil, leaves [bufferFlushCnt] and [bufferRowId] at 0
    and the text of [lsn] under the key of the table. *)
Theorem FlushToMainTable_promotes (lsn : LSN) (w w1 : World) :
  flushBuffer env w = (Ret None, w1) →
  IsEmpty (ChBufferTable (cfg (tbl w1))) = false →
  bufferFlushCnt (tbl w1) ≠ 0 →
  inSync (tbl w1) = false →
  accepted env (trace w1)
    (map Exec (flushQueries (tbl w1))
     ++ [Exec (truncateStatement (ChBufferTable (cfg (tbl w1))));
         PersWrite (KeyName (PgTableNameOf (cfg (tbl w1)))) (FormattedBytes lsn)]) →
  ∃ w' : World,
    FlushToMainTable env lsn w = (Ret None, w')
    ∧ bufferFlushCnt (tbl w') = 0
    ∧ bufferRowId (tbl w') = 0
    ∧ bufferCmdId (tbl w') = bufferCmdId (tbl w1)
    ∧ checkpoint w' = Some (FormattedBytes lsn)
    ∧ trace w'
      = trace w1
        ++ map Exec (flushQueries (tbl w1))
        ++ [Exec (truncateStatement (ChBufferTable (cfg (tbl w1))));
            PersWrite (KeyName (PgTableNameOf (cfg (tbl w1)))) (FormattedBytes lsn)].
Proof.
  intros Hflush Hbuf Hcnt Hsync Hacc.
  apply accepted_app in Hacc as [Hqueries (Htrunc & Hsave & _)].
  unfold FlushToMainTable, orReturn. unfold bind at 1. rewrite Hflush.
  unfold bind at 1, getTbl. rewrite Hbuf.
  destruct (Z.eqb_spec (bufferFlushCnt (tbl w1)) 0) as [? | _]; [done |].
  cbn [orb negb]. unfold bind at 1.
  change maxAttempts with (S 99). cbn [promoteLoop]. unfold bind at 1.
  assert (Htry : tryFlushToMainTable env w1
                 = (Ret None,
                    withTrace (trace w1 ++ map Exec (flushQueries (tbl w1)))
                      (withTbl (set_bufferRowId 0 (set_bufferFlushCnt 0 (tbl w1))) w1))).
  { unfold tryFlushToMainTable, orReturn, bind at 1, getTbl.
    unfold bind at 1. rewrite execQueries_accepted by done. reflexivity. }
  rewrite Htry. clear Htry.
  rewrite <- app_assoc in Hsave.
  unfold truncateTable, orReturn, call, getTbl, persWrite,
    truncateStatement, checkpoint, bind, ret in *.
  simpl in *. rewrite Htrunc. simpl. rewrite Hsync. simpl.
  rewrite <- app_assoc. simpl. rewrite Hsave.
  eexists. split; [reflexivity |]. simpl.
  repeat split; try reflexivity.
  - apply lookup_insert_eq.
  - rewrite <- !app_assoc. reflexivity.
Qed.

(** X4. While [inSync] holds FlushToMainTable leaves the checkpoint alone:
    the store is what it was and no write to it is tried, whatever the
    sink answers. *)
Theorem FlushToMainTable_in_sync_keeps_checkpoint (lsn : LSN) (w : World) :
  inSync (tbl w) = true →
  persStorage (FlushToMainTable env lsn w).2 = persStorage w
  ∧ inSync (tbl (FlushToMainTable env lsn w).2) = true
  ∧ ∃ added, trace (FlushToMainTable env lsn w).2 = trace w ++ added
             ∧ Forall (λ c, isPersWrite c = false) added.
Proof.
  intros Hsync.
  pose proof (checkpointUntouched_frame) as F.
  assert (Hgoal : checkpointUntouched w (FlushToMainTable env lsn w).2).
  { unfold FlushToMainTable, orReturn. unfold bind at 1.
    pose proof (keeps_flushBuffer env F w) as H1.
    destruct (flushBuffer env w) as [[[e1 | ] | why] w1]; simpl in H1; try exact H1.
    unfold bind at 1, getTbl.
    destruct (_ || _); [exact H1 |].
    unfold bind at 1.
    pose proof (keeps_promoteLoop env F maxAttempts w1) as H2.
    destruct (promoteLoop env maxAttempts w1) as [[[e2 | ] | why] w2]; simpl in H2;
      try (apply (frame_trans _ F _ _ _ H1 H2)).
    assert (H12 : checkpointUntouched w w2) by apply (frame_trans _ F _ _ _ H1 H2).
    unfold bind at 1.
    set (trunc := if negb (IsEmpty (ChBufferTable (cfg (tbl w1))))
                  then truncateTable env (ChBufferTable (cfg (tbl w1))) else ret None).
    assert (H3 : checkpointUntouched w2 (trunc w2).2).
    { unfold trunc. destruct (negb _);
        [apply (keeps_truncateTable env F) | apply (keeps_ret F)]. }
    destruct (trunc w2) as [[[e3 | ] | why] w3]; simpl in H3;
      try (apply (frame_trans _ F _ _ _ H12 H3)).
    assert (H13 : checkpointUntouched w w3) by apply (frame_trans _ F _ _ _ H12 H3).
    unfold bind at 1, getTbl.
    destruct H13 as (Hs & _). rewrite Hs, Hsync. cbn [negb].
    unfold bind, ret. apply (frame_trans _ F _ _ _ H12 H3). }
  destruct Hgoal as (Hs & Hp & Hadd).
  split; [exact Hp |]. split; [by rewrite Hs | exact Hadd].
Qed.

(** X5. Without a buffer table FlushToMainTable is the flush of the buffer
    and nothing more: the world it leaves is the one flushBuffer leaves,
    the checkpoint store is untouched, and the result is nil or the
    wrapped error of the flush. *)
Theorem FlushToMainTable_without_buffer_table (lsn : LSN) (w : World) :
  IsEmpty (ChBufferTable (cfg (tbl w))) = true →
  (FlushToMainTable env lsn w).2 = (flushBuffer env w).2
  ∧ persStorage (FlushToMainTable env lsn w).2 = persStorage w
  ∧ ((FlushToMainTable env lsn w).1 = Ret None
     ∨ ∃ inner, (flushBuffer env w).1 = Ret (Some inner)
                ∧ (FlushToMainTable env lsn w).1
                  = Ret (Some (Errorf "could not flush buffers: %v" [ArgError inner]))).
Proof.
  intros Hbuf.
  destruct (flushBuffer_returns env w)
    as (r & w1 & Hflush & Hok & Hnoop & Herr & Hstore & _).
  assert (Hcfg : cfg (tbl w1) = cfg (tbl w)).
  { destruct r as [e | ]; [by rewrite Herr |].
    destruct (Z.eq_dec (bufferCmdId (tbl w)) 0) as [H0 | Hne].
    - by rewrite (Hnoop eq_refl H0).
    - by rewrite (Hok eq_refl Hne). }
  assert (Heq : FlushToMainTable env lsn w
                = (match r with
                   | Some e => Ret (Some (Errorf "could not flush buffers: %v"
                                            [ArgError e]))
                   | None => Ret None
                   end, w1)).
  { unfold FlushToMainTable, orReturn. unfold bind at 1. rewrite Hflush.
    destruct r as [e | ]; [reflexivity |].
    unfold bind at 1, getTbl. rewrite Hcfg, Hbuf. reflexivity. }
  rewrite Heq, Hflush. cbn [fst snd].
  split; [done |]. split; [done |].
  destruct r as [e | ]; [right; by exists e | by left].
Qed.

(** ** The stream handler outside of a sync *)

Lemma writeRows_live_step (lsn : LSN) (row : slice) (rest : chTuples) (w : World) :
  inSync (tbl w) = false →
  syncSnapshotLSN (tbl w) <= lsn →
  accepted env (trace w) (liveLines [sliceBytes (heap w) row]) →
  writeRows env lsn (row :: rest) w =
    writeRows env lsn rest
      (withTrace (trace w ++ liveLines [sliceBytes (heap w) row])
         (withTbl (set_bufferRowId (wrap_int (bufferRowId (tbl w) + 1)) (tbl w)) w)).
Proof.
  intros Hsync Hlsn (Hrow & Hnl & _).
  cbn [writeRows]. unfold bind at 1, getTbl. rewrite Hsync.
  destruct (Z.ltb_spec lsn (syncSnapshotLSN (tbl w))) as [? | _]; [lia |].
  unfold readRow, writeLine, orReturn, bind, modifyTbl, call, ret.
  cbn [rowBytes]. rewrite Hrow. cbn [record trace tbl persStorage generationID heap].
  rewrite Hnl.
  unfold record, withTrace, withTbl.
  cbn [liveLines tbl trace persStorage generationID heap].
  rewrite <- app_assoc. reflexivity.
Qed.

Lemma writeRows_live (lsn : LSN) (rest : chTuples) :
  ∀ (row : slice) (w : World),
    inSync (tbl w) = false →
    syncSnapshotLSN (tbl w) <= lsn →
    accepted env (trace w) (liveLines (contents (heap w) (row :: rest))) →
    writeRows env lsn (row :: rest) w =
      (Ret None,
       withTrace (trace w ++ liveLines (contents (heap w) (row :: rest)))
         (withTbl
            (set_bufferRowId
               (wrap_int (bufferRowId (tbl w) + Z.of_nat (length (row :: rest))))
               (tbl w))
            w)).
Proof.
  induction rest as [| row2 rest IH]; intros row w Hsync Hlsn Hacc.
  - rewrite writeRows_live_step; [reflexivity | done | done |].
    destruct Hacc as (? & ? & _). repeat split; done.
  - destruct Hacc as (Hrow & Hnl & Hrest).
    rewrite writeRows_live_step; [| done | done | repeat split; done].
    rewrite IH; [| done | done |].
    + unfold withTrace, withTbl. cbn [tbl trace persStorage generationID heap].
      cbn [set_bufferRowId bufferRowId cfg chUsedColumns
           pgUsedColumns columnMapping bufferCmdId bufferFlushCnt flushQueries
           tupleColumns inSync syncedRows rowsToSync syncSnapshotLSN auxTblRowID].
      rewrite wrap_int_add_l.
      replace (Z.of_nat (length (row :: row2 :: rest)))
        with (1 + Z.of_nat (length (row2 :: rest)))
        by (cbn [length]; lia).
      rewrite !Z.add_assoc.
      cbn [contents map liveLines]. rewrite <- !app_assoc. reflexivity.
    + cbn [withTrace withTbl tbl trace heap liveLines].
      rewrite <- app_assoc in Hrest. exact Hrest.
Qed.

(** X6. A non-empty batch received outside of a sync with an LSN at or above
    the snapshot LSN, whose writes the loader accepts: every row goes to
    the loader as it is, followed by a newline; [bufferRowId] grows by
    the number of rows and [bufferCmdId] by one (64-bit arithmetic),
    [auxTblRowID] and [bufferFlushCnt] keep their values, the rows are
    not written to, and the function goes on with its auto-flush. *)
Theorem processChTuples_live
    (lsn : LSN) (row : slice) (rest : chTuples) (w : World) :
  inSync (tbl w) = false →
  syncSnapshotLSN (tbl w) <= lsn →
  accepted env (trace w) (liveLines (contents (heap w) (row :: rest))) →
  ∃ w1 : World,
    stageTuples env lsn (Some (row :: rest)) w = (Ret None, w1)
    ∧ processChTuples env lsn (Some (row :: rest)) w = flushAndSignal env w1
    ∧ trace w1 = trace w ++ liveLines (contents (heap w) (row :: rest))
    ∧ bufferRowId (tbl w1)
        = wrap_int (bufferRowId (tbl w) + Z.of_nat (length (row :: rest)))
    ∧ bufferCmdId (tbl w1) = wrap_int (bufferCmdId (tbl w) + 1)
    ∧ auxTblRowID (tbl w1) = auxTblRowID (tbl w)
    ∧ bufferFlushCnt (tbl w1) = bufferFlushCnt (tbl w)
    ∧ heap w1 = heap w.
Proof.
  intros Hsync Hlsn Hacc.
  eexists. split.
  { unfold stageTuples, bind at 1.
    rewrite writeRows_live by done.
    unfold bind, modifyTbl, ret. reflexivity. }
  split.
  { unfold processChTuples, bind at 1, stageTuples, bind at 1.
    rewrite writeRows_live by done.
    unfold bind, modifyTbl, ret. reflexivity. }
  repeat split; reflexivity.
Qed.

(** What the loop of processChTuples never touches. *)
Lemma writeRows_frame (lsn : LSN) (set : chTuples) :
  ∀ (w : World) r (w' : World),
    writeRows env lsn set w = (r, w') →
    cfg (tbl w') = cfg (tbl w)
    ∧ bufferCmdId (tbl w') = bufferCmdId (tbl w)
    ∧ bufferFlushCnt (tbl w') = bufferFlushCnt (tbl w)
    ∧ inSync (tbl w') = inSync (tbl w)
    ∧ persStorage w' = persStorage w.
Proof.
  intros w r w' Hrun.
  destruct (writeRows_returns env lsn set w)
    as (r0 & w0 & Heq & Hcfg & Hcmd & Hcnt & Hin & _ & Hstore & _).
  rewrite Heq in Hrun. injection Hrun as <- <-. done.
Qed.

(** X7. The command counter stays under its bound as long as processChTuples
    returns no error: from [0 <= bufferCmdId < MaxBufferLength] a call
    that returns nil as its error ends with
    [0 <= bufferCmdId < MaxBufferLength] again, and with the same
    configuration. *)
Theorem processChTuples_keeps_bufferCmdId_below_max
    (lsn : LSN) (set : option chTuples) (w w' : World) (b : bool) :
  0 <= bufferCmdId (tbl w) < MaxBufferLength (cfg (tbl w)) →
  MaxBufferLength (cfg (tbl w)) < 2 ^ 63 →
  processChTuples env lsn set w = (Ret (b, None), w') →
  cfg (tbl w') = cfg (tbl w)
  ∧ 0 <= bufferCmdId (tbl w') < MaxBufferLength (cfg (tbl w')).
Proof.
  intros Hcmd Hmax Hrun.
  assert (Htail : ∀ w1,
             cfg (tbl w1) = cfg (tbl w) →
             0 <= bufferCmdId (tbl w1) <= MaxBufferLength (cfg (tbl w)) →
             flushAndSignal env w1 = (Ret (b, None), w') →
             cfg (tbl w') = cfg (tbl w)
             ∧ 0 <= bufferCmdId (tbl w') < MaxBufferLength (cfg (tbl w'))).
  { intros w1 Hcfg1 Hcmd1 Hsig.
    destruct (Z.eq_dec (bufferCmdId (tbl w1)) (MaxBufferLength (cfg (tbl w1))))
      as [Hfull | Hnot].
    - destruct (flushBuffer_returns env w1) as (r & w2 & Hflush & Hok & _).
      rewrite (flushAndSignal_flush env w1 w2 r Hfull Hflush) in Hsig.
      destruct r as [e | ]; [discriminate Hsig |].
      injection Hsig as _ <-.
      rewrite Hok; [| done | rewrite Hfull, Hcfg1; lia].
      cbn [afterFlush set_bufferFlushCnt set_bufferCmdId cfg bufferCmdId].
      rewrite Hcfg1. split; [done | lia].
    - rewrite (flushAndSignal_no_flush env w1 Hnot) in Hsig.
      injection Hsig as _ <-. rewrite Hcfg1 in *. split; [done | lia]. }
  unfold processChTuples, bind at 1 in Hrun.
  destruct set as [rows | ].
  - unfold stageTuples, bind at 1 in Hrun.
    destruct (writeRows env lsn rows w) as [[[out | ] | why] w1] eqn:Hrows;
      [| | discriminate Hrun];
      destruct (writeRows_frame lsn rows w _ _ Hrows) as (Hcfg1 & Hcmd1 & _).
    + unfold ret in Hrun. injection Hrun as -> <-.
      rewrite Hcfg1, Hcmd1. done.
    + unfold bind, modifyTbl, ret in Hrun.
      apply Htail in Hrun; [done | exact Hcfg1 |].
      cbn [tbl set_bufferCmdId bufferCmdId]. rewrite Hcmd1.
      rewrite wrap_int_small; lia.
  - unfold stageTuples, ret in Hrun. apply Htail in Hrun; [done | done | lia].
Qed.

(** ** The initial sync *)

Lemma genSyncWrite_step (p : bytes) (w : World) r (w' : World) :
  genSyncWrite env p w = (r, w') →
  syncSnapshotLSN (tbl w') = syncSnapshotLSN (tbl w)
  ∧ (∃ added, trace w' = trace w ++ added)
  ∧ (r = Ret None → syncedRows (tbl w') = wrap_uint64 (syncedRows (tbl w) + 1)).
Proof.
  unfold genSyncWrite.
  destruct (DecodeCopyToTuples p) as [row | err].
  - unfold convertRowM, orReturn, call, modifyTbl, bind, ret.
    destruct (convertRow (tbl w) (generationID w) row) as [tuple | ]; simpl.
    + destruct (callErr env (trace w) (BulkWrite tuple)) as [e | ]; simpl;
        intros [= <- <-]; simpl; (split; [done |]); (split; [by eexists | done]).
    + intros [= <- <-]. split; [done |]. split; [| done].
      exists []. by rewrite app_nil_r.
  - intros [= <- <-]. split; [done |]. split; [| done].
    exists []. by rewrite app_nil_r.
Qed.

Lemma writeCopyLines_count (lines : list bytes) :
  ∀ (w : World) r (w' : World),
    writeCopyLines env lines w = (r, w') →
    0 <= syncedRows (tbl w) < 2 ^ 64 →
    syncSnapshotLSN (tbl w') = syncSnapshotLSN (tbl w)
    ∧ (∃ added, trace w' = trace w ++ added)
    ∧ (r = Ret None →
       syncedRows (tbl w')
       = wrap_uint64 (syncedRows (tbl w) + Z.of_nat (length lines))).
Proof.
  induction lines as [| p rest IH]; intros w r w' Hrun Hrange.
  { injection Hrun as <- <-. split; [done |].
    split; [exists []; by rewrite app_nil_r |].
    intros _. simpl. by rewrite Z.add_0_r, wrap_uint64_small. }
  cbn [writeCopyLines] in Hrun. unfold orReturn, bind at 1 in Hrun.
  destruct (genSyncWrite env p w) as [[[e | ] | why] w1] eqn:Hwrite;
    destruct (genSyncWrite_step p w _ _ Hwrite) as (Hlsn1 & [add1 Htr1] & Hcount1).
  - injection Hrun as <- <-. split; [done |]. split; [by exists add1 | done].
  - destruct (IH w1 r w' Hrun) as (Hlsn2 & [add2 Htr2] & Hcount2).
    { rewrite (Hcount1 eq_refl). unfold wrap_uint64.
      apply Z.mod_pos_bound. lia. }
    split; [congruence |].
    split; [exists (add1 ++ add2); by rewrite Htr2, Htr1, app_assoc |].
    intros Hr. rewrite (Hcount2 Hr), (Hcount1 eq_refl), wrap_uint64_add_l.
    f_equal. cbn [length]. lia.
  - injection Hrun as <- <-. split; [done |]. split; [by exists add1 | done].
Qed.

Lemma genSyncCopy_inr
    (snapshotLSN : LSN) (w w1 : World) (pgRows : Z) (loaderErr : option error) :
  genSyncCopy env snapshotLSN w = (Ret (inr (pgRows, loaderErr)), w1) →
  syncSnapshotLSN (tbl w1) = snapshotLSN
  ∧ ∃ tr stmt rest,
      trace w1 = tr ++ CopyToWriter stmt :: rest
      ∧ syncedRows (tbl w1) = wrap_uint64 (Z.of_nat (length (copyLines env tr)))
      ∧ pgRows = copyRowsAffected env tr.
Proof.
  cbv beta iota zeta delta
    [genSyncCopy orReturn truncateTable pgStatLiveTuples copyToWriter call getTbl
     modifyTbl bind ret].
  destruct (negb (IsEmpty (ChSyncAuxTable (cfg (tbl w))))); simpl.
  all: repeat
    (match goal with
     | |- context [callErr env ?tr ?c] =>
         lazymatch c with
         | CopyToWriter _ => fail
         | _ => destruct (callErr env tr c); simpl; try discriminate
         end
     | |- context [liveTuples env ?tr] =>
         destruct (liveTuples env tr) as [? []]; simpl
     | |- context [negb (InitSyncSkipTruncate ?c)] =>
         destruct (negb (InitSyncSkipTruncate c)); simpl
     end).
  all: match goal with
       | |- context [writeCopyLines env (copyLines env ?tr) ?w0] =>
           destruct (writeCopyLines env (copyLines env tr) w0)
             as [[[? | ] | ?] wc] eqn:Hlines; simpl; try discriminate;
           destruct (writeCopyLines_count _ _ _ _ Hlines ltac:(simpl; lia))
             as (Hlsn & [added Hadd] & Hcount);
           destruct (callErr env tr (CopyToWriter _)); simpl; try discriminate;
           destruct (callErr env (trace wc) BulkFinish); simpl; try discriminate;
           intros [= <- <- <-]; simpl in *;
           (split; [exact Hlsn |]);
           eexists tr, _, (added ++ [BulkFinish]);
           (split; [rewrite Hadd, <- !app_assoc; reflexivity |]);
           (split; [rewrite (Hcount eq_refl); f_equal; lia | reflexivity])
       end.
Qed.

(** X8. When the COPY part of genSync ends without error, [syncedRows] is
    the number of lines the COPY handed to the writer (modulo 2^64), the
    rows reported are those of that COPY, and [syncSnapshotLSN] is the
    snapshot LSN given to genSync. *)
Theorem genSyncCopy_counts_lines
    (snapshotLSN : LSN) (w w1 : World) (pgRows : Z) (loaderErr : option error) :
  genSyncCopy env snapshotLSN w = (Ret (inr (pgRows, loaderErr)), w1) →
  syncSnapshotLSN (tbl w1) = snapshotLSN
  ∧ ∃ tr stmt rest,
      trace w1 = tr ++ CopyToWriter stmt :: rest
      ∧ syncedRows (tbl w1) = wrap_uint64 (Z.of_nat (length (copyLines env tr)))
      ∧ pgRows = copyRowsAffected env tr.
Proof.
  intros Hcopy.
  destruct (genSyncCopy_inr snapshotLSN w w1 pgRows loaderErr Hcopy)
    as (Hlsn & tr & stmt & rest & Htrace & Hcount & Hrows).
  split; [exact Hlsn |].
  exists tr, stmt, rest. repeat split; assumption.
Qed.

(** The post sync, when it returns nil. *)
Lemma genSyncPost_success (snapshotLSN : LSN) (w1 w2 : World) :
  genSyncPost env snapshotLSN w1 = (Ret None, w2) →
  inSync (tbl w2) = false
  ∧ checkpoint w2 = Some (FormattedBytes snapshotLSN)
  ∧ syncSnapshotLSN (tbl w2) = syncSnapshotLSN (tbl w1)
  ∧ bufferCmdId (tbl w2) = 0.
Proof.
  unfold genSyncPost, orReturn. unfold bind at 1.
  destruct (flushBuffer_returns env w1) as (r & wf & Hflush & Hok & Hnoop & _).
  rewrite Hflush. destruct r as [e | ]; [discriminate |].
  assert (Htbl : syncSnapshotLSN (tbl wf) = syncSnapshotLSN (tbl w1)
                 ∧ bufferCmdId (tbl wf) = 0).
  { destruct (Z.eq_dec (bufferCmdId (tbl w1)) 0) as [H0 | Hne].
    - by rewrite (Hnoop eq_refl H0).
    - by rewrite (Hok eq_refl Hne). }
  destruct Htbl as [Hlsn Hcmd].
  cbv beta iota zeta delta
    [orReturn truncateTable deltaSize persWrite call getTbl modifyTbl bind ret].
  destruct (callErr env (trace wf) (Query _)); [discriminate |].
  destruct (queryRows env (trace wf) _) as [| [| cell ?] ?]; try discriminate.
  simpl.
  destruct (callErr env _ (Exec (mergeStatement _ _))); simpl; [discriminate |].
  destruct (negb (IsEmpty (ChSyncAuxTable (cfg (tbl wf))))); simpl.
  - destruct (callErr env _ (Exec _)); simpl; [discriminate |].
    destruct (callErr env _ (PersWrite _ _)); simpl; [discriminate |].
    intros [= <-]. unfold checkpoint. simpl.
    split; [done |]. split; [apply lookup_insert_eq | done].
  - destruct (callErr env _ (PersWrite _ _)); simpl; [discriminate |].
    intros [= <-]. unfold checkpoint. simpl.
    split; [done |]. split; [apply lookup_insert_eq | done].
Qed.

(** The post sync, when it does not return nil. *)
Lemma genSyncPost_failure (snapshotLSN : LSN) (w1 : World) :
  (genSyncPost env snapshotLSN w1).1 ≠ Ret None →
  inSync (tbl (genSyncPost env snapshotLSN w1).2) = inSync (tbl w1)
  ∧ persStorage (genSyncPost env snapshotLSN w1).2 = persStorage w1.
Proof.
  destruct (genSyncPost env snapshotLSN w1) as [r w2] eqn:Hrun. simpl.
  revert Hrun. unfold genSyncPost, orReturn. unfold bind at 1.
  destruct (flushBuffer_returns env w1)
    as (r1 & wf & Hflush & Hok & Hnoop & Herr & Hstore & _).
  rewrite Hflush.
  assert (Hsync : inSync (tbl wf) = inSync (tbl w1)).
  { destruct r1 as [e | ]; [by rewrite Herr |].
    destruct (Z.eq_dec (bufferCmdId (tbl w1)) 0) as [H0 | Hne].
    - by rewrite (Hnoop eq_refl H0).
    - by rewrite (Hok eq_refl Hne). }
  destruct r1 as [e | ]; [intros [= <- <-]; done |].
  cbv beta iota zeta delta
    [orReturn truncateTable deltaSize persWrite call getTbl modifyTbl bind ret].
  destruct (callErr env (trace wf) (Query _)); [intros [= <- <-]; done |].
  destruct (queryRows env (trace wf) _) as [| [| cell ?] ?];
    try (intros [= <- <-]; done).
  simpl.
  destruct (callErr env _ (Exec (mergeStatement _ _))); simpl;
    [intros [= <- <-]; done |].
  destruct (negb (IsEmpty (ChSyncAuxTable (cfg (tbl wf))))); simpl.
  - destruct (callErr env _ (Exec _)); simpl; [intros [= <- <-]; done |].
    destruct (callErr env _ (PersWrite _ _)); simpl; [intros [= <- <-]; done |].
    intros [= <- <-]. done.
  - destruct (callErr env _ (PersWrite _ _)); simpl; [intros [= <- <-]; done |].
    intros [= <- <-]. done.
Qed.

(** X9. When genSync returns nil the sync is over: [inSync] is false, the
    store holds the text of the snapshot LSN under the key of the table,
    [syncSnapshotLSN] is the snapshot LSN, the buffer is flushed
    ([bufferCmdId = 0]); and from then on a non-empty batch with a
    smaller LSN is dropped, the world staying as it is. *)
Theorem genSync_success (snapshotLSN : LSN) (w w' : World) :
  genSync env snapshotLSN w = (Ret None, w') →
  inSync (tbl w') = false
  ∧ checkpoint w' = Some (FormattedBytes snapshotLSN)
  ∧ syncSnapshotLSN (tbl w') = snapshotLSN
  ∧ bufferCmdId (tbl w') = 0
  ∧ ∀ lsn row rest,
      lsn < snapshotLSN →
      processChTuples env lsn (Some (row :: rest)) w' = (Ret (false, None), w').
Proof.
  intros Hrun. unfold genSync, bind at 1 in Hrun.
  destruct (genSyncCopy env snapshotLSN w) as [[[err | [pgRows loaderErr]] | why] w1]
    eqn:Hcopy; try discriminate Hrun.
  destruct (genSyncCopy_inr snapshotLSN w w1 pgRows loaderErr Hcopy) as [Hlsn1 _].
  unfold bind at 1, getTbl in Hrun.
  destruct (negb (pgRows =? wrap_int (syncedRows (tbl w1)))); [discriminate Hrun |].
  destruct loaderErr as [err | ]; [discriminate Hrun |].
  destruct (genSyncPost_success snapshotLSN w1 w' Hrun) as (Hsync & Hcp & Hlsn & Hcmd).
  rewrite Hlsn1 in Hlsn.
  repeat split; try done.
  intros lsn row rest Hlt.
  unfold processChTuples, stageTuples, bind; simpl.
  unfold bind, getTbl; simpl.
  rewrite Hsync, Hlsn.
  destruct (Z.ltb_spec lsn snapshotLSN) as [_ | ?]; [reflexivity | lia].
Qed.

(** X10. Whenever genSync does not return nil (it returns an error, or the
    process stops in deltaSize or in a panic of convertRow), the engine
    is still in the sync it was in and the checkpoint store is what it
    was: a sync that failed has written no checkpoint. *)
Theorem genSync_failure_keeps_checkpoint (snapshotLSN : LSN) (w : World) :
  (genSync env snapshotLSN w).1 ≠ Ret None →
  inSync (tbl (genSync env snapshotLSN w).2) = inSync (tbl w)
  ∧ persStorage (genSync env snapshotLSN w).2 = persStorage w.
Proof.
  pose proof (keeps_genSyncCopy env checkpointUntouched_frame snapshotLSN w)
    as (Hsync1 & Hstore1 & _).
  destruct (genSync env snapshotLSN w) as [r w'] eqn:Hrun. simpl. intros Hfail.
  unfold genSync, bind at 1 in Hrun.
  destruct (genSyncCopy env snapshotLSN w) as [[[err | [pgRows loaderErr]] | why] w1];
    simpl in Hsync1, Hstore1; try (injection Hrun as <- <-; done).
  unfold bind at 1, getTbl in Hrun.
  destruct (negb (pgRows =? wrap_int (syncedRows (tbl w1))));
    [injection Hrun as <- <-; done |].
  destruct loaderErr as [err | ]; [injection Hrun as <- <-; done |].
  destruct (genSyncPost_failure snapshotLSN w1) as [Hsync2 Hstore2].
  { by rewrite Hrun. }
  rewrite Hrun in Hsync2, Hstore2. simpl in Hsync2, Hstore2.
  split; congruence.
Qed.

(** ** Truncate *)

Lemma Truncate_leaves (lsn : LSN) (w : World) :
  tbl (Truncate env lsn w).2 = set_bufferCmdId 0 (tbl w)
  ∧ persStorage (Truncate env lsn w).2 = persStorage w.
Proof.
  unfold Truncate, truncateTable, orReturn, bind, modifyTbl, getTbl, call, ret; simpl.
  destruct (callErr env (trace w) _) as [e | ]; simpl; [done |].
  destruct (IsEmpty _); simpl; [done |].
  destruct (callErr env _ _) as [e | ]; simpl; done.
Qed.

(** X11. What was staged before a Truncate is not flushed after it: right
    after Truncate, whatever the sink answered, flushBuffer returns nil
    without any call, and so does FlushToMainTable when no flush was
    waiting for a promotion; Truncate itself leaves the checkpoint store
    as it was. *)
Theorem Truncate_then_flush_is_noop (lsn lsn' : LSN) (w : World) :
  flushBuffer env (Truncate env lsn w).2 = (Ret None, (Truncate env lsn w).2)
  ∧ persStorage (Truncate env lsn w).2 = persStorage w
  ∧ (bufferFlushCnt (tbl w) = 0 →
     FlushToMainTable env lsn' (Truncate env lsn w).2
     = (Ret None, (Truncate env lsn w).2)).
Proof.
  destruct (Truncate_leaves lsn w) as [Htbl Hstore].
  assert (Hcmd : bufferCmdId (tbl (Truncate env lsn w).2) = 0) by by rewrite Htbl.
  split; [by apply flushBuffer_empty |]. split; [exact Hstore |].
  intros Hcnt. unfold FlushToMainTable, orReturn.
  unfold bind at 1. rewrite flushBuffer_empty by exact Hcmd.
  unfold bind, getTbl, ret. rewrite Htbl. simpl. rewrite Hcnt. simpl.
  by rewrite orb_true_r.
Qed.

End EngineProperties.

(** ** newGenericTable *)

Section ConstructorProperties.

Variable IsIstore : PgColumn → bool.

Lemma collectColumns_used (tblCfg : Table) (mapping : gmap string ChColumn)
    (cols : list Column) :
  ∀ cm pgUsed chUsed cm' pgUsed' chUsed',
    collectColumns IsIstore tblCfg mapping cols (cm, pgUsed, chUsed)
      = Some (cm', pgUsed', chUsed') →
    pgUsed' = pgUsed ++ map Name (filter (λ c, is_Some (mapping !! Name c)) cols)
    ∧ ∀ n, cm' !! n
           = match mapping !! n with
             | Some c => if bool_decide (n ∈ map Name cols) then Some c else cm !! n
             | None => cm !! n
             end.
Proof.
  induction cols as [| col rest IH]; intros cm pgUsed chUsed cm' pgUsed' chUsed' Hrun.
  { injection Hrun as <- <- <-. split; [by rewrite app_nil_r |].
    intros n. destruct (mapping !! n); [| done].
    rewrite bool_decide_eq_false_2; [done | by intros ?%elem_of_nil]. }
  cbn [collectColumns] in Hrun.
  destruct (mapping !! Name col) as [chCol |] eqn:Hmap.
  2:{ apply IH in Hrun as [Hpg Hcm]. split.
      - rewrite Hpg. f_equal. rewrite filter_cons_False; [done |].
        rewrite Hmap. by intros [? ?].
      - intros n. rewrite Hcm. destruct (mapping !! n) as [c |] eqn:Hn; [| done].
        cbn [map]. destruct (decide (n = Name col)) as [-> | Hne]; [congruence |].
        destruct (bool_decide (n ∈ map Name rest)) eqn:Hin.
        + apply bool_decide_eq_true in Hin.
          rewrite bool_decide_eq_true_2; [done | by apply list_elem_of_further].
        + apply bool_decide_eq_false in Hin.
          rewrite bool_decide_eq_false_2; [done |].
          intros [? | ?]%elem_of_cons; done. }
  assert (Hgo : ∃ chUsed1,
             collectColumns IsIstore tblCfg mapping rest
               (<[Name col := chCol]> cm, pgUsed ++ [Name col], chUsed1)
             = Some (cm', pgUsed', chUsed')).
  { destruct (IsIstore _); [| by eexists].
    destruct (ColumnProperties tblCfg !! Name col) as [columnCfg |]; [| by eexists].
    destruct (FlattenIstore columnCfg); [| by eexists].
    destruct (flattenNames _ _ _); [by eexists | done]. }
  destruct Hgo as [chUsed1 Hgo]. apply IH in Hgo as [Hpg Hcm]. split.
  - rewrite Hpg, <- app_assoc. f_equal.
    rewrite filter_cons_True; [done | by rewrite Hmap].
  - intros n. rewrite Hcm. cbn [map].
    destruct (decide (n = Name col)) as [-> | Hne].
    + rewrite Hmap, lookup_insert_eq.
      rewrite (bool_decide_eq_true_2 (Name col ∈ Name col :: map Name rest));
        [| apply list_elem_of_here].
      by destruct (bool_decide _).
    + rewrite lookup_insert_ne by done.
      destruct (mapping !! n) as [c |]; [| done].
      destruct (bool_decide (n ∈ map Name rest)) eqn:Hin.
      * apply bool_decide_eq_true in Hin.
        rewrite bool_decide_eq_true_2; [done | by apply list_elem_of_further].
      * apply bool_decide_eq_false in Hin.
        rewrite bool_decide_eq_false_2; [done |].
        intros [? | ?]%elem_of_cons; done.
Qed.

(** X18. The table newGenericTable builds uses exactly the source columns
    that have an entry in the configured mapping: [pgUsedColumns] is
    their names in the order of the source columns, [columnMapping]
    holds the configured entry of each of them and nothing else, so a
    name is in [pgUsedColumns] iff convertRow finds it in
    [columnMapping]. *)
Theorem newGenericTable_used_columns
    (tblCfg : Table) (setup : TableSetup) (t : genericTable) :
  newGenericTable IsIstore tblCfg setup = Some t →
  pgUsedColumns t
  = map Name (filter (λ c, is_Some (ColumnMapping setup !! Name c)) (TupleColumns setup))
  ∧ (∀ n c, columnMapping t !! n = Some c
            ↔ ColumnMapping setup !! n = Some c ∧ n ∈ map Name (TupleColumns setup))
  ∧ (∀ n, n ∈ pgUsedColumns t ↔ is_Some (columnMapping t !! n))
  ∧ tupleColumns t = TupleColumns setup.
Proof.
  unfold newGenericTable. intros Hnew.
  destruct (collectColumns IsIstore tblCfg (ColumnMapping setup) (TupleColumns setup)
              (∅, [], [])) as [[[cm pgUsed] chUsed] |] eqn:Hrun; [| done].
  injection Hnew as <-. cbn [pgUsedColumns columnMapping tupleColumns].
  apply collectColumns_used in Hrun as [Hpg Hcm]. simpl in Hpg.
  assert (Hlookup : ∀ n c, cm !! n = Some c
            ↔ ColumnMapping setup !! n = Some c ∧ n ∈ map Name (TupleColumns setup)).
  { intros n c. rewrite Hcm.
    destruct (ColumnMapping setup !! n) as [c' |];
      [| rewrite lookup_empty; split; [done | by intros [? _]]].
    destruct (bool_decide (n ∈ map Name (TupleColumns setup))) eqn:Hin.
    - apply bool_decide_eq_true in Hin. split; [by intros ? | by intros [? _]].
    - apply bool_decide_eq_false in Hin. rewrite lookup_empty.
      split; [done | by intros [_ ?]]. }
  split; [exact Hpg |]. split; [exact Hlookup |]. split; [| done].
  intros n. rewrite Hpg. rewrite list_elem_of_fmap. split.
  - intros (col & -> & [[c Hc] Hin]%list_elem_of_filter).
    exists c. apply Hlookup. split; [done |].
    apply list_elem_of_fmap. by exists col.
  - intros [c [Hc (col & -> & Hin)%list_elem_of_fmap]%Hlookup].
    exists col. split; [done |]. apply list_elem_of_filter. by split; [exists c |].
Qed.

Lemma collectColumns_plain (tblCfg : Table) (mapping : gmap string ChColumn)
    (cols : list Column) :
  (∀ col, col ∈ cols →
          IsIstore (default zeroPgColumn (PgColumns tblCfg !! Name col)) = false) →
  ∀ cm pgUsed chUsed,
    ∃ cm' pgUsed',
      collectColumns IsIstore tblCfg mapping cols (cm, pgUsed, chUsed)
      = Some (cm', pgUsed',
              chUsed ++ omap (λ col, ChColumnName <$> mapping !! Name col) cols).
Proof.
  induction cols as [| col rest IH]; intros Hplain cm pgUsed chUsed.
  { exists cm, pgUsed. simpl. by rewrite app_nil_r. }
  cbn [collectColumns omap list_omap].
  destruct (mapping !! Name col) as [chCol |] eqn:Hmap; simpl.
  - rewrite (Hplain col) by apply list_elem_of_here.
    destruct (IH (λ c Hc, Hplain c (list_elem_of_further _ _ _ Hc))
                (<[Name col := chCol]> cm) (pgUsed ++ [Name col])
                (chUsed ++ [ChColumnName chCol])) as (cm' & pgUsed' & Heq).
    exists cm', pgUsed'. rewrite Heq, <- app_assoc. reflexivity.
  - apply IH. intros c Hc. apply Hplain. by apply list_elem_of_further.
Qed.

(** X19. With no istore column among the source columns newGenericTable
    always returns a table, whose sink columns are the configured sink
    names of the used source columns, in their order, followed by the
    generation column when there is one: one sink column per used source
    column. *)
Theorem newGenericTable_plain_columns (tblCfg : Table) (setup : TableSetup) :
  (∀ col, col ∈ TupleColumns setup →
          IsIstore (default zeroPgColumn (PgColumns tblCfg !! Name col)) = false) →
  ∃ t, newGenericTable IsIstore tblCfg setup = Some t
       ∧ chUsedColumns t
         = omap (λ col, ChColumnName <$> ColumnMapping setup !! Name col)
             (TupleColumns setup)
           ++ (if String.eqb (GenerationColumn tblCfg) "" then []
               else [GenerationColumn tblCfg])
       ∧ length (chUsedColumns t)
         = (length (pgUsedColumns t)
            + if String.eqb (GenerationColumn tblCfg) "" then 0 else 1)%nat.
Proof.
  intros Hplain.
  destruct (collectColumns_plain tblCfg (ColumnMapping setup) (TupleColumns setup)
              Hplain ∅ [] []) as (cm & pgUsed & Hrun).
  unfold newGenericTable. rewrite Hrun. eexists. split; [reflexivity |].
  cbn [chUsedColumns pgUsedColumns app].
  apply collectColumns_used in Hrun as [Hpg _]. simpl in Hpg.
  assert (Hlen : length (omap (λ col, ChColumnName <$> ColumnMapping setup !! Name col)
                           (TupleColumns setup))
                 = length pgUsed).
  { rewrite Hpg, length_map. clear.
    induction (TupleColumns setup) as [| col rest IH]; [done |].
    cbn [omap list_omap].
    destruct (ColumnMapping setup !! Name col) as [c |] eqn:Hc; simpl.
    - rewrite filter_cons_True by (by rewrite Hc). simpl. by rewrite IH.
    - rewrite filter_cons_False; [done |]. rewrite Hc. by intros [? ?]. }
  destruct (String.eqb (GenerationColumn tblCfg) "").
  - split; [by rewrite app_nil_r |]. rewrite Hlen. lia.
  - split; [done |]. rewrite length_app, Hlen. simpl. lia.
Qed.

End ConstructorProperties.

(** ** The additional theorems at work *)

Lemma appendField_delimiters_witness :
  bytes_of "a" ≠ []
  ∧ appendField (bytes_of "a") [bytes_of "b"; bytes_of "c"]
    = bytes_of "a" ++ [columnDelimiter] ++ bytes_of "b" ++ [columnDelimiter] ++ bytes_of "c"
  ∧ appendField (appendField (bytes_of "a") [bytes_of "b"]) [bytes_of "c"]
    = appendField (bytes_of "a") [bytes_of "b"; bytes_of "c"].
Proof.
  assert (Hne : bytes_of "a" ≠ []) by discriminate.
  destruct (appendField_delimiters (bytes_of "a") [bytes_of "b"; bytes_of "c"] [])
    as [_ Hall].
  destruct (appendField_delimiters (bytes_of "a") [bytes_of "b"] [bytes_of "c"])
    as [_ Hsteps].
  split; [exact Hne |]. split.
  - rewrite (proj1 (Hall Hne)). reflexivity.
  - exact (proj2 (Hsteps Hne)).
Defined.

(** (1, x) against (1, NULL): the value of the second column has no
    counterpart. *)
Lemma compareRows_flags_witness :
  compareRows tupleNull sampleTable sourceRow nullRow = Some (false, false)
  ∧ ¬ (∀ col ta tb,
         comparedAt sampleTable sourceRow nullRow 0 (tupleColumns sampleTable) col ta tb →
         sameTuple tupleNull ta tb = true).
Proof.
  assert (Hrun : compareRows tupleNull sampleTable sourceRow nullRow = Some (false, false))
    by (vm_compute; reflexivity).
  split; [exact Hrun |].
  destruct (compareRows_flags tupleNull sampleTable sourceRow nullRow false false Hrun)
    as [Heq _].
  intros Hall. apply Heq in Hall. discriminate Hall.
Defined.

(** (1, x) against (2, x): the key column changed. *)
Lemma compareRows_key_changed_not_equal_witness :
  compareRows tupleNull sampleTable sourceRow otherRow = Some (false, true).
Proof.
  assert (Hrun : ∃ equal, compareRows tupleNull sampleTable sourceRow otherRow
                          = Some (equal, true)) by (eexists; vm_compute; reflexivity).
  destruct Hrun as [equal Hrun].
  rewrite Hrun.
  rewrite (compareRows_key_changed_not_equal tupleNull sampleTable sourceRow otherRow
             equal true Hrun eq_refl).
  reflexivity.
Defined.

(** (1, NULL) against itself. *)
Lemma compareRows_same_row_witness :
  compareRows tupleNull sampleTable nullRow nullRow = Some (false, false)
  ∧ ¬ (∀ col ta,
         comparedAt sampleTable nullRow nullRow 0 (tupleColumns sampleTable) col ta ta →
         Kind ta ≠ tupleNull).
Proof.
  assert (Hrun : compareRows tupleNull sampleTable nullRow nullRow = Some (false, false))
    by (vm_compute; reflexivity).
  split; [exact Hrun |].
  intros Hall.
  apply (compareRows_same_row tupleNull sampleTable nullRow false false Hrun) in Hall.
  discriminate Hall.
Defined.

Lemma convertRow_joins_mapped_columns_witness :
  convertRow sampleTable 7 sourceRow
  = Some (bytes_of "1" ++ [columnDelimiter] ++ bytes_of "x").
Proof.
  rewrite (convertRow_joins_mapped_columns sampleTable 7 sourceRow
             {| Name := "id"; IsKey := true |} [ {| Name := "v"; IsKey := false |} ]
             eq_refl).
  - vm_compute. reflexivity.
  - eexists. vm_compute. reflexivity.
  - vm_compute. lia.
Defined.

(** The promotion query is taken, or refused. *)
Lemma tryFlushToMainTable_outcome_witness :
  accepted quietOracle (trace stagedWorld) (map Exec (flushQueries (tbl stagedWorld)))
  ∧ (tryFlushToMainTable quietOracle stagedWorld).1 = Ret None
  ∧ bufferRowId (tbl (tryFlushToMainTable quietOracle stagedWorld).2) = 0
  ∧ tryFlushToMainTable promotionDown stagedWorld
    = (Ret (Some (ExternalError "connection refused")),
       withTrace (trace stagedWorld ++ [Exec promotionQuery]) stagedWorld).
Proof.
  assert (Hacc : accepted quietOracle (trace stagedWorld)
                   (map Exec (flushQueries (tbl stagedWorld))))
    by (simpl; repeat split).
  destruct (tryFlushToMainTable_outcome quietOracle stagedWorld) as [Hok _].
  destruct (tryFlushToMainTable_outcome promotionDown stagedWorld) as [_ Hrefused].
  split; [exact Hacc |].
  split; [rewrite (Hok Hacc); reflexivity |].
  split; [rewrite (Hok Hacc); reflexivity |].
  apply (Hrefused [] promotionQuery []); [reflexivity | exact I | reflexivity].
Defined.

(** The promotion is refused and the context is cancelled at the first
    wait. *)
Lemma FlushToMainTable_errors_witness :
  (FlushToMainTable (failingOracle (isExecOf promotionQuery) (Some 0%nat)) 200
     stagedWorld).1
  = Ret (Some (Errorf "abort retrying" [])).
Proof.
  destruct (FlushToMainTable_errors
              (failingOracle (isExecOf promotionQuery) (Some 0%nat)) 200 stagedWorld)
    as (r & Hr & _).
  rewrite Hr. f_equal.
  assert (Hrun : (FlushToMainTable (failingOracle (isExecOf promotionQuery) (Some 0%nat))
                    200 stagedWorld).1
                 = Ret (Some (Errorf "abort retrying" [])))
    by (vm_compute; reflexivity).
  rewrite Hr in Hrun. injection Hrun as ->. reflexivity.
Defined.

(** One staged command is flushed and promoted with the LSN 400. *)
Lemma FlushToMainTable_promotes_witness :
  ∃ w' : World,
    FlushToMainTable quietOracle 400 stagedWorld = (Ret None, w')
    ∧ bufferFlushCnt (tbl w') = 0
    ∧ bufferRowId (tbl w') = 0
    ∧ checkpoint w' = Some (FormattedBytes 400).
Proof.
  destruct (FlushToMainTable_promotes quietOracle 400 stagedWorld
              (flushBuffer quietOracle stagedWorld).2)
    as (w' & Hrun & Hcnt & Hrow & _ & Hcp & _).
  - vm_compute. reflexivity.
  - vm_compute. reflexivity.
  - vm_compute. discriminate.
  - vm_compute. reflexivity.
  - simpl. repeat split.
  - exists w'. repeat split; assumption.
Defined.

(** A promotion asked for during the sync. *)
Lemma FlushToMainTable_in_sync_keeps_checkpoint_witness :
  inSync (tbl syncingWorld) = true
  ∧ persStorage (FlushToMainTable quietOracle 400 syncingWorld).2 = ∅.
Proof.
  split; [reflexivity |].
  destruct (FlushToMainTable_in_sync_keeps_checkpoint quietOracle 400 syncingWorld
              eq_refl) as (Hstore & _).
  exact Hstore.
Defined.

(** An engine without a buffer table. *)
Lemma FlushToMainTable_without_buffer_table_witness :
  IsEmpty (ChBufferTable (cfg (tbl plainWorld))) = true
  ∧ (FlushToMainTable quietOracle 400 plainWorld).2 = (flushBuffer quietOracle plainWorld).2
  ∧ persStorage (FlushToMainTable quietOracle 400 plainWorld).2 = ∅.
Proof.
  assert (Hbuf : IsEmpty (ChBufferTable (cfg (tbl plainWorld))) = true)
    by (vm_compute; reflexivity).
  destruct (FlushToMainTable_without_buffer_table quietOracle 400 plainWorld Hbuf)
    as (Hworld & Hstore & _).
  split; [exact Hbuf |]. split; [exact Hworld |].
  rewrite Hstore. vm_compute. reflexivity.
Defined.

(** Two rows of one command, outside of a sync. *)
Lemma processChTuples_live_witness :
  inSync (tbl sampleWorld) = false
  ∧ syncSnapshotLSN (tbl sampleWorld) <= 300
  ∧ ∃ w1 : World,
      stageTuples quietOracle 300 (Some [liveRow; liveRow2]) sampleWorld = (Ret None, w1)
      ∧ trace w1 = liveLines [sevenBytes; eightBytes]
      ∧ bufferRowId (tbl w1) = 2
      ∧ bufferCmdId (tbl w1) = 1.
Proof.
  assert (Hlsn : syncSnapshotLSN (tbl sampleWorld) <= 300) by (simpl; lia).
  assert (Hacc : accepted quietOracle (trace sampleWorld)
                   (liveLines (contents (heap sampleWorld) [liveRow; liveRow2])))
    by (simpl; repeat split).
  split; [reflexivity |]. split; [exact Hlsn |].
  destruct (processChTuples_live quietOracle 300 liveRow [liveRow2] sampleWorld
              eq_refl Hlsn Hacc)
    as (w1 & Hstage & _ & Htrace & Hrow & Hcmd & _).
  exists w1. split; [exact Hstage |].
  split; [rewrite Htrace; vm_compute; reflexivity |].
  split; [exact Hrow | exact Hcmd].
Defined.

(** The second command fills the buffer, which is flushed. *)
Lemma processChTuples_keeps_bufferCmdId_below_max_witness :
  0 <= bufferCmdId (tbl stagedWorld) < MaxBufferLength (cfg (tbl stagedWorld))
  ∧ 0 <= bufferCmdId (tbl (processChTuples quietOracle 310 (Some [liveRow2]) stagedWorld).2)
       < 2.
Proof.
  assert (Hcmd : 0 <= bufferCmdId (tbl stagedWorld)
                 < MaxBufferLength (cfg (tbl stagedWorld)))
    by (vm_compute; split; [discriminate | reflexivity]).
  assert (Hmax : MaxBufferLength (cfg (tbl stagedWorld)) < 2 ^ 63)
    by (vm_compute; reflexivity).
  assert (Hrun : processChTuples quietOracle 310 (Some [liveRow2]) stagedWorld
                 = (Ret (true, None),
                    (processChTuples quietOracle 310 (Some [liveRow2]) stagedWorld).2))
    by (vm_compute; reflexivity).
  split; [exact Hcmd |].
  destruct (processChTuples_keeps_bufferCmdId_below_max quietOracle 310
              (Some [liveRow2]) stagedWorld _ true Hcmd Hmax Hrun) as [Hcfg Hbound].
  rewrite Hcfg in Hbound. exact Hbound.
Defined.

(** One line is copied. *)
Lemma genSyncCopy_counts_lines_witness :
  genSyncCopy shortCopyOracle 200 syncStarted
    = (Ret (inr (2, None)), (genSyncCopy shortCopyOracle 200 syncStarted).2)
  ∧ syncSnapshotLSN (tbl (genSyncCopy shortCopyOracle 200 syncStarted).2) = 200.
Proof.
  assert (Hcopy : genSyncCopy shortCopyOracle 200 syncStarted
            = (Ret (inr (2, None)), (genSyncCopy shortCopyOracle 200 syncStarted).2))
    by (vm_compute; reflexivity).
  split; [exact Hcopy |].
  exact (proj1 (genSyncCopy_counts_lines shortCopyOracle 200 syncStarted _ 2 None Hcopy)).
Defined.

(** The sync of the examples, then an event with the LSN 150. *)
Lemma genSync_success_witness :
  genSync quietOracle 200 syncingWorld = (Ret None, afterSync)
  ∧ inSync (tbl afterSync) = false
  ∧ checkpoint afterSync = Some (FormattedBytes 200)
  ∧ processChTuples quietOracle 150 (Some [liveRow]) afterSync
    = (Ret (false, None), afterSync).
Proof.
  assert (Hrun : genSync quietOracle 200 syncingWorld = (Ret None, afterSync))
    by (vm_compute; reflexivity).
  destruct (genSync_success quietOracle 200 syncingWorld afterSync Hrun)
    as (Hsync & Hcp & _ & _ & Hdrop).
  split; [exact Hrun |]. split; [exact Hsync |]. split; [exact Hcp |].
  apply Hdrop. lia.
Defined.

(** The sync that ends on a row count mismatch. *)
Lemma genSync_failure_keeps_checkpoint_witness :
  (genSync shortCopyOracle 200 syncStarted).1 ≠ Ret None
  ∧ inSync (tbl (genSync shortCopyOracle 200 syncStarted).2) = true
  ∧ persStorage (genSync shortCopyOracle 200 syncStarted).2 = ∅.
Proof.
  assert (Hfail : (genSync shortCopyOracle 200 syncStarted).1 ≠ Ret None)
    by (vm_compute; discriminate).
  destruct (genSync_failure_keeps_checkpoint shortCopyOracle 200 syncStarted Hfail)
    as [Hsync Hstore].
  split; [exact Hfail |]. split; [exact Hsync | exact Hstore].
Defined.

(** A Truncate with one command staged. *)
Lemma Truncate_then_flush_is_noop_witness :
  bufferFlushCnt (tbl stagedWorld) = 0
  ∧ bufferCmdId (tbl stagedWorld) = 1
  ∧ FlushToMainTable quietOracle 400 (Truncate quietOracle 300 stagedWorld).2
    = (Ret None, (Truncate quietOracle 300 stagedWorld).2).
Proof.
  assert (Hcnt : bufferFlushCnt (tbl stagedWorld) = 0) by (vm_compute; reflexivity).
  split; [exact Hcnt |]. split; [vm_compute; reflexivity |].
  destruct (Truncate_then_flush_is_noop quietOracle 300 400 stagedWorld)
    as (_ & _ & Hnoop).
  exact (Hnoop Hcnt).
Defined.

(** The table built from three source columns of which two are mapped. *)
Lemma newGenericTable_used_columns_witness :
  ∃ t, newGenericTable noIstore plainCfg sampleSetup = Some t
       ∧ pgUsedColumns t = ["id"; "v"]
       ∧ columnMapping t !! "note" = None.
Proof.
  assert (Hnew : ∃ t, newGenericTable noIstore plainCfg sampleSetup = Some t)
    by (eexists; vm_compute; reflexivity).
  destruct Hnew as [t Hnew]. exists t. split; [exact Hnew |].
  destruct (newGenericTable_used_columns noIstore plainCfg sampleSetup t Hnew)
    as (Hpg & Hcm & _).
  split; [rewrite Hpg; vm_compute; reflexivity |].
  destruct (columnMapping t !! "note") as [c |] eqn:Hnote; [| reflexivity].
  apply Hcm in Hnote as [Hconf _]. vm_compute in Hconf. discriminate Hconf.
Defined.

Lemma newGenericTable_plain_columns_witness :
  ∃ t, newGenericTable noIstore plainCfg sampleSetup = Some t
       ∧ chUsedColumns t = ["id"; "v"].
Proof.
  destruct (newGenericTable_plain_columns noIstore plainCfg sampleSetup)
    as (t & Hnew & Hch & _).
  - intros col _. reflexivity.
  - exists t. split; [exact Hnew |]. rewrite Hch. vm_compute. reflexivity.
Defined.
